(** * Flame Tunnel (bgw_flipper_ir_serial.c): entropy mixer, infrared path,
      long-press gestures

    A shallow embedding of [src/bgw_flipper_ir_serial.c].  [uint32_t] values
    are integers in [0, 2^32) with the wrap-around written out; the calls the
    application makes into the firmware (serial port, mutex, storage,
    canvas) are recorded, in program order, in a call log next to the
    application state. *)

From Stdlib Require Import ZArith List String Ascii Bool Lia.
Import ListNotations.

Open Scope Z_scope.

(** ** Machine words *)

Module U32.

Definition modulus : Z := 2 ^ 32.

Definition wrap (x : Z) : Z := x mod modulus.

Definition add (a b : Z) : Z := wrap (a + b).

Definition sub (a b : Z) : Z := wrap (a - b).

Definition in_range (x : Z) : Prop := 0 <= x < modulus.

End U32.

(** ** Firmware declarations used by the application

    The enumerations of [input/input.h] and [storage/filesystem_api_defines.h]
    are not part of the repository; they are listed here as the firmware
    headers declare them. *)

Inductive InputKey : Type :=
| InputKeyUp | InputKeyDown | InputKeyRight | InputKeyLeft
| InputKeyOk | InputKeyBack.

Inductive InputType : Type :=
| InputTypePress | InputTypeRelease
| InputTypeShort | InputTypeLong | InputTypeRepeat.

Record InputEvent : Type := mkInputEvent {
  key : InputKey;
  type : InputType
}.

Definition InputKey_eqb (a b : InputKey) : bool :=
  match a, b with
  | InputKeyUp, InputKeyUp | InputKeyDown, InputKeyDown
  | InputKeyRight, InputKeyRight | InputKeyLeft, InputKeyLeft
  | InputKeyOk, InputKeyOk | InputKeyBack, InputKeyBack => true
  | _, _ => false
  end.

Inductive FS_AccessMode : Type := FSAM_READ | FSAM_WRITE | FSAM_READ_WRITE.

Inductive FS_OpenMode : Type :=
| FSOM_OPEN_EXISTING   (* open, fail when the file does not exist *)
| FSOM_OPEN_ALWAYS     (* open, create the file when it does not exist *)
| FSOM_OPEN_APPEND     (* as OPEN_ALWAYS, read/write pointer set to the end *)
| FSOM_CREATE_NEW      (* create, fail when the file exists *)
| FSOM_CREATE_ALWAYS.  (* create, truncate an existing file *)

Inductive Font : Type := FontPrimary | FontBigNumbers.

(** Calls into the firmware that act on a collaborator. *)
Inductive Call : Type :=
| furi_hal_serial_tx (handle : nat) (buf : string)
| furi_mutex_acquire (mutex : nat)
| furi_mutex_release (mutex : nat)
| furi_record_open (name : string)
| furi_record_close (name : string)
| file_stream_alloc
| file_stream_open (path : string) (am : FS_AccessMode) (om : FS_OpenMode)
| stream_write (buf : string)
| file_stream_close
| canvas_clear
| canvas_set_font (f : Font)
| canvas_draw_str (x y : Z) (text : string)
| canvas_draw_str_aligned (x y : Z) (text : string).

Definition RECORD_STORAGE : string := "storage".

Definition LOG_PATH : string := "/ext/flame_tunnel.log".

(** ** Constants and application state *)

Definition MAX_BUF : nat := 64.

Definition HOLD_TIME_MS : Z := 1000.

Record FlameTunnelState : Type := mkState {
  serial_handle : nat;
  running : bool;
  log_to_file : bool;
  last_rng : Z;
  mutex : nat;
  in_menu : bool;
  back_pressed_time : Z;
  ok_pressed_time : Z
}.

Definition set_running (b : bool) (s : FlameTunnelState) : FlameTunnelState :=
  mkState (serial_handle s) b (log_to_file s) (last_rng s) (mutex s)
          (in_menu s) (back_pressed_time s) (ok_pressed_time s).

Definition set_log_to_file (b : bool) (s : FlameTunnelState) : FlameTunnelState :=
  mkState (serial_handle s) (running s) b (last_rng s) (mutex s)
          (in_menu s) (back_pressed_time s) (ok_pressed_time s).

Definition set_last_rng (v : Z) (s : FlameTunnelState) : FlameTunnelState :=
  mkState (serial_handle s) (running s) (log_to_file s) v (mutex s)
          (in_menu s) (back_pressed_time s) (ok_pressed_time s).

Definition set_in_menu (b : bool) (s : FlameTunnelState) : FlameTunnelState :=
  mkState (serial_handle s) (running s) (log_to_file s) (last_rng s) (mutex s)
          b (back_pressed_time s) (ok_pressed_time s).

Definition set_back_pressed_time (t : Z) (s : FlameTunnelState) : FlameTunnelState :=
  mkState (serial_handle s) (running s) (log_to_file s) (last_rng s) (mutex s)
          (in_menu s) t (ok_pressed_time s).

Definition set_ok_pressed_time (t : Z) (s : FlameTunnelState) : FlameTunnelState :=
  mkState (serial_handle s) (running s) (log_to_file s) (last_rng s) (mutex s)
          (in_menu s) (back_pressed_time s) t.

(** The initialiser of [bgw_flipper_ir_serial_app], with the handles it
    obtains from the firmware. *)
Definition initial_state (serial mtx : nat) : FlameTunnelState :=
  mkState serial true false 0 mtx false 0 0.

(** The application state together with the log of firmware calls made so
    far, oldest first. *)
Record Machine : Type := mkMachine {
  st : FlameTunnelState;
  calls : list Call
}.

Definition emit (cs : list Call) (m : Machine) : Machine :=
  mkMachine (st m) (calls m ++ cs)%list.

Definition update (f : FlameTunnelState -> FlameTunnelState) (m : Machine) : Machine :=
  mkMachine (f (st m)) (calls m).

(** ** generate_rng *)

(** The body of [for(size_t i = 0; i < n; i++) seed ^= times[i] + i;] with
    [k] iterations left.  The sum is formed in the width of [uint32_t] (on
    the target [size_t] has the same width; a wider [size_t] gives the same
    low 32 bits once the result is stored in [seed]). *)
Fixpoint generate_rng_loop (times : list Z) (k : nat) (i : Z) (seed : Z) : Z :=
  match k with
  | O => seed
  | S k' =>
      generate_rng_loop times k' (i + 1)
        (Z.lxor seed (U32.add (nth (Z.to_nat i) times 0) i))
  end.

(** [times] is the raw signal handed out by [infrared_worker_get_raw_signal];
    [hw_random] and [cyccnt] are the values read from [furi_hal_random_get()]
    and [DWT->CYCCNT]. *)
Definition generate_rng (times : list Z) (hw_random cyccnt : Z) : Z :=
  let n := List.length times in
  let seed := Z.lxor hw_random cyccnt in
  generate_rng_loop times n 0 seed.

(** The entropy mixer as the specification words it: a fold over the pulses
    paired with their indices, in 32-bit arithmetic. *)
Definition indexed (times : list Z) : list (Z * Z) :=
  combine (map Z.of_nat (seq 0 (List.length times))) times.

Definition mix_step (seed : Z) (id : Z * Z) : Z :=
  Z.lxor seed (U32.add (snd id) (fst id)).

Definition mix (pulses : list Z) (hw_seed cycle_counter : Z) : Z :=
  fold_left mix_step (indexed pulses) (Z.lxor hw_seed cycle_counter).

(** The same fold with the sum taken in the integers. *)
Definition mix_unbounded (pulses : list Z) (hw_seed cycle_counter : Z) : Z :=
  fold_left (fun seed id => Z.lxor seed (snd id + fst id))
            (indexed pulses) (Z.lxor hw_seed cycle_counter).

(** ** Formatting *)

Definition LF : string := String (ascii_of_nat 10) EmptyString.

Definition digit_char (d : Z) : ascii := ascii_of_nat (48 + Z.to_nat d).

(** Decimal conversion, least significant digit first, as [%lu] prints an
    [unsigned long]; twenty digits cover every 64-bit value. *)
Fixpoint utoa_loop (fuel : nat) (n : Z) (acc : string) : string :=
  match fuel with
  | O => acc
  | S fuel' =>
      let acc' := String (digit_char (n mod 10)) acc in
      if n / 10 =? 0 then acc' else utoa_loop fuel' (n / 10) acc'
  end.

Definition utoa (n : Z) : string := utoa_loop 20 n EmptyString.

Fixpoint zeros (k : nat) : string :=
  match k with
  | O => EmptyString
  | S k' => String "0" (zeros k')
  end.

(** [%06lu]: zero padding up to a minimum width of six. *)
Definition utoa06 (n : Z) : string :=
  let digits := utoa n in
  (zeros (6 - String.length digits) ++ digits)%string.

(** [snprintf(buf, size, ...)] keeps at most [size - 1] characters in [buf]
    and returns the length of the whole formatted text. *)
Definition snprintf (size : nat) (text : string) : string * nat :=
  (substring 0 (size - 1) text, String.length text).

(** Reading the decimal digits back, used to state that [utoa] prints the
    number it is given. *)
Definition digit_value (c : ascii) : Z := Z.of_nat (nat_of_ascii c) - 48.

Fixpoint atou_loop (s : string) (acc : Z) : Z :=
  match s with
  | EmptyString => acc
  | String c s' => atou_loop s' (10 * acc + digit_value c)
  end.

Definition atou (s : string) : Z := atou_loop s 0.

(** ** process_ir *)

(** Statements run one after the other on the machine. *)
Definition exec (body : list (Machine -> Machine)) (m : Machine) : Machine :=
  fold_left (fun acc stmt => stmt acc) body m.

Definition log_calls (record : string) : list Call :=
  [ furi_record_open RECORD_STORAGE;
    file_stream_alloc;
    file_stream_open LOG_PATH FSAM_WRITE FSOM_OPEN_ALWAYS;
    stream_write record;
    file_stream_close;
    furi_record_close RECORD_STORAGE ].

(** The three statements of [process_ir] after the [snprintf]: the serial
    transmission of [len] bytes of [buf], the guarded write to the log file,
    and the assignment to [last_rng]. *)
Definition process_ir_body (rng : Z) : list (Machine -> Machine) :=
  let (buf, len) := snprintf MAX_BUF ("RNG:" ++ utoa rng ++ LF)%string in
  [ fun m => emit [furi_hal_serial_tx (serial_handle (st m)) (substring 0 len buf)] m;
    fun m => if log_to_file (st m)
             then emit (log_calls (substring 0 len buf)) m
             else m;
    update (set_last_rng rng) ].

Definition process_ir (rng : Z) (m : Machine) : Machine :=
  exec (process_ir_body rng) m.

(** The machine after the first [k] statements of [process_ir]. *)
Definition process_ir_upto (k : nat) (rng : Z) (m : Machine) : Machine :=
  exec (firstn k (process_ir_body rng)) m.

(** ** ir_callback *)

Definition ir_callback (times : list Z) (hw_random cyccnt : Z) (m : Machine) : Machine :=
  let rng := generate_rng times hw_random cyccnt in
  let m1 := emit [furi_mutex_acquire (mutex (st m))] m in
  let m2 := process_ir rng m1 in
  emit [furi_mutex_release (mutex (st m2))] m2.

(** ** draw *)

Definition draw (m : Machine) : Machine :=
  let s := st m in
  let m1 := emit [canvas_clear; canvas_set_font FontPrimary] m in
  if in_menu s then
    emit [canvas_draw_str 2 10 "Config Menu";
          canvas_draw_str 2 30 (if log_to_file s then "Log ON" else "Log OFF")] m1
  else
    let buf := fst (snprintf 32 (utoa06 (last_rng s))) in
    emit [canvas_draw_str 2 10 "Flame Tunnel";
          canvas_set_font FontBigNumbers;
          canvas_draw_str_aligned 64 30 buf] m1.

(** ** input_cb *)

(** [now] is the value of [furi_get_tick()] read on entry. *)
Definition input_cb (ev : InputEvent) (now : Z) (m : Machine) : Machine :=
  let s := st m in
  match type ev with
  | InputTypePress =>
      let m1 := if InputKey_eqb (key ev) InputKeyBack
                then update (set_back_pressed_time now) m else m in
      if InputKey_eqb (key ev) InputKeyOk
      then update (set_ok_pressed_time now) m1 else m1
  | InputTypeRelease =>
      if InputKey_eqb (key ev) InputKeyBack
         && (HOLD_TIME_MS <=? U32.sub now (back_pressed_time s))
      then update (set_running false) m
      else if InputKey_eqb (key ev) InputKeyOk
              && (HOLD_TIME_MS <=? U32.sub now (ok_pressed_time s))
      then update (set_in_menu (negb (in_menu s))) m
      else if in_menu s && InputKey_eqb (key ev) InputKeyOk
      then update (set_log_to_file (negb (log_to_file s))) m
      else m
  | _ => m
  end.

Definition press (k : InputKey) : InputEvent := mkInputEvent k InputTypePress.

Definition release (k : InputKey) : InputEvent := mkInputEvent k InputTypeRelease.

(** ** The three event sources *)

Inductive Event : Type :=
| Infrared (times : list Z) (hw_random cyccnt : Z)
| Input (ev : InputEvent) (now : Z)
| RenderTick.

Definition handle (e : Event) (m : Machine) : Machine :=
  match e with
  | Infrared times hw_random cyccnt => ir_callback times hw_random cyccnt m
  | Input ev now => input_cb ev now m
  | RenderTick => draw m
  end.

Definition run (es : list Event) (m : Machine) : Machine :=
  fold_left (fun acc e => handle e acc) es m.

Definition boot (serial mtx : nat) : Machine :=
  mkMachine (initial_state serial mtx) [].

(** ** Reading the call log *)

(** The bytes sent on the serial port, in order. *)
Fixpoint serial_output (cs : list Call) : string :=
  match cs with
  | [] => EmptyString
  | furi_hal_serial_tx _ buf :: cs' => (buf ++ serial_output cs')%string
  | _ :: cs' => serial_output cs'
  end.

(** The storage side of the firmware: the files and the stream opened by
    [file_stream_open], with its read/write offset.  The offset after opening
    follows the open mode as [storage/filesystem_api_defines.h] documents it:
    only [FSOM_OPEN_APPEND] moves it to the end of the file. *)
Record Storage : Type := mkStorage {
  files : string -> option string;
  stream : option (string * nat)
}.

Definition put_file (path content : string) (fs : string -> option string)
  : string -> option string :=
  fun p => if String.eqb p path then Some content else fs p.

Definition write_at (pos : nat) (data old : string) : string :=
  let after := (pos + String.length data)%nat in
  (substring 0 pos old ++ data
   ++ substring after (String.length old - after) old)%string.

Definition storage_open (path : string) (om : FS_OpenMode) (sto : Storage) : Storage :=
  match om, files sto path with
  | FSOM_OPEN_EXISTING, Some _ => mkStorage (files sto) (Some (path, O))
  | FSOM_OPEN_EXISTING, None => mkStorage (files sto) None
  | FSOM_OPEN_ALWAYS, Some _ => mkStorage (files sto) (Some (path, O))
  | FSOM_OPEN_ALWAYS, None =>
      mkStorage (put_file path EmptyString (files sto)) (Some (path, O))
  | FSOM_OPEN_APPEND, Some old =>
      mkStorage (files sto) (Some (path, String.length old))
  | FSOM_OPEN_APPEND, None =>
      mkStorage (put_file path EmptyString (files sto)) (Some (path, O))
  | FSOM_CREATE_NEW, Some _ => mkStorage (files sto) None
  | FSOM_CREATE_NEW, None =>
      mkStorage (put_file path EmptyString (files sto)) (Some (path, O))
  | FSOM_CREATE_ALWAYS, _ =>
      mkStorage (put_file path EmptyString (files sto)) (Some (path, O))
  end.

Definition storage_write (data : string) (sto : Storage) : Storage :=
  match stream sto with
  | Some (path, pos) =>
      match files sto path with
      | Some old =>
          mkStorage (put_file path (write_at pos data old) (files sto))
                    (Some (path, (pos + String.length data)%nat))
      | None => sto
      end
  | None => sto
  end.

Definition storage_call (sto : Storage) (c : Call) : Storage :=
  match c with
  | file_stream_open path _ om => storage_open path om sto
  | stream_write data => storage_write data sto
  | file_stream_close => mkStorage (files sto) None
  | _ => sto
  end.

Definition storage_after (cs : list Call) (sto : Storage) : Storage :=
  fold_left storage_call cs sto.

(** The calls a handler added to the log. *)
Definition new_calls (before after : Machine) : list Call :=
  skipn (List.length (calls before)) (calls after).

Definition is_mutex_call (c : Call) : bool :=
  match c with
  | furi_mutex_acquire _ | furi_mutex_release _ => true
  | _ => false
  end.

(** The record the specification names: ["RNG:<decimal>\n"]. *)
Definition rng_record (v : Z) : string := ("RNG:" ++ utoa v ++ LF)%string.

(** The buffer of the most recent serial transmission in a call log. *)
Fixpoint last_tx (cs : list Call) : option string :=
  match cs with
  | [] => None
  | c :: cs' =>
      match last_tx cs', c with
      | Some buf, _ => Some buf
      | None, furi_hal_serial_tx _ buf => Some buf
      | None, _ => None
      end
  end.

(** ** Reading a transmitted record back *)

Definition is_digit (c : ascii) : bool :=
  (0 <=? digit_value c) && (digit_value c <? 10).

(** Digits up to the line feed that ends the record. *)
Fixpoint parse_digits (s : string) (acc : Z) : option Z :=
  match s with
  | EmptyString => None
  | String c s' =>
      if is_digit c then parse_digits s' (10 * acc + digit_value c)
      else if Ascii.eqb c (ascii_of_nat 10)
           then match s' with EmptyString => Some acc | _ => None end
           else None
  end.

Definition parse_record (s : string) : option Z :=
  match s with
  | String "R" (String "N" (String "G" (String ":" rest))) => parse_digits rest 0
  | _ => None
  end.

(** What an event puts on the serial port: the record of its value for an
    infrared event, nothing for the others. *)
Definition record_of_event (e : Event) : string :=
  match e with
  | Infrared times hw_random cyccnt =>
      rng_record (generate_rng times hw_random cyccnt)
  | _ => EmptyString
  end.

Fixpoint records_of (es : list Event) : string :=
  match es with
  | [] => EmptyString
  | e :: es' => (record_of_event e ++ records_of es')%string
  end.

Definition is_canvas_call (c : Call) : bool :=
  match c with
  | canvas_clear | canvas_set_font _
  | canvas_draw_str _ _ _ | canvas_draw_str_aligned _ _ _ => true
  | _ => false
  end.

(** The holder of the mutex after a call log, [None] when free; the outer
    [None] reports an acquire of a held mutex or a release by a non-holder. *)
Fixpoint lock_discipline (cs : list Call) (holder : option nat)
  : option (option nat) :=
  match cs with
  | [] => Some holder
  | furi_mutex_acquire id :: cs' =>
      match holder with
      | None => lock_discipline cs' (Some id)
      | Some _ => None
      end
  | furi_mutex_release id :: cs' =>
      match holder with
      | Some id' => if Nat.eqb id id' then lock_discipline cs' None else None
      | None => None
      end
  | _ :: cs' => lock_discipline cs' holder
  end.

Definition is_back_release (e : Event) : bool :=
  match e with
  | Input ev _ =>
      match type ev, key ev with
      | InputTypeRelease, InputKeyBack => true
      | _, _ => false
      end
  | _ => false
  end.

Definition is_ok_release (e : Event) : bool :=
  match e with
  | Input ev _ =>
      match type ev, key ev with
      | InputTypeRelease, InputKeyOk => true
      | _, _ => false
      end
  | _ => false
  end.


(** The value of the last infrared event of a sequence, [v] when there is
    none. *)
Fixpoint last_infrared (es : list Event) (v : Z) : Z :=
  match es with
  | [] => v
  | Infrared times hw_random cyccnt :: es' =>
      last_infrared es' (generate_rng times hw_random cyccnt)
  | _ :: es' => last_infrared es' v
  end.

(** ** bgw_flipper_ir_serial_app *)

(** The firmware calls of the entry point itself.  The callbacks run on the
    firmware's threads, so their calls stay in the log of the machine and
    the entry point keeps a log of its own. *)
Inductive MainCall : Type :=
| furi_mutex_alloc
| furi_hal_serial_control_init
| furi_hal_serial_control_acquire
| furi_hal_serial_init (baud : Z)
| view_port_alloc
| view_port_draw_callback_set
| view_port_input_callback_set
| gui_record_open
| gui_add_view_port
| infrared_worker_alloc
| infrared_worker_rx_set_received_signal_callback
| infrared_worker_rx_start
| view_port_update
| furi_delay_ms (ms : Z)
| furi_hal_serial_deinit
| furi_hal_serial_control_release
| infrared_worker_rx_stop
| infrared_worker_free
| gui_remove_view_port
| view_port_free
| furi_mutex_free
| gui_record_close.

Definition setup_calls : list MainCall :=
  [ furi_mutex_alloc;
    furi_hal_serial_control_init;
    furi_hal_serial_control_acquire;
    furi_hal_serial_init 115200;
    view_port_alloc;
    view_port_draw_callback_set;
    view_port_input_callback_set;
    gui_record_open;
    gui_add_view_port;
    infrared_worker_alloc;
    infrared_worker_rx_set_received_signal_callback;
    infrared_worker_rx_start ].

Definition teardown_calls : list MainCall :=
  [ furi_hal_serial_deinit;
    furi_hal_serial_control_release;
    infrared_worker_rx_stop;
    infrared_worker_free;
    gui_remove_view_port;
    view_port_free;
    furi_mutex_free;
    gui_record_close ].

(** The calls of [n] passes through the body of [while(st.running)]. *)
Fixpoint loop_calls (n : nat) : list MainCall :=
  match n with
  | O => []
  | S n' => view_port_update :: furi_delay_ms 100 :: loop_calls n'
  end.

(** [while(st.running)]: the loop reads [running] before each pass; the
    callbacks that fire during a pass are one element of [rounds].  [None]
    when [running] is still set after the last round given. *)
Fixpoint main_loop (rounds : list (list Event)) (m : Machine) (passes : nat)
  : option (Machine * nat) :=
  match rounds with
  | [] => if running (st m) then None else Some (m, passes)
  | r :: rounds' =>
      if running (st m)
      then main_loop rounds' (run r m) (S passes)
      else Some (m, passes)
  end.

Record AppResult : Type := mkAppResult {
  ret : Z;
  final : Machine;
  main_calls : list MainCall
}.

(** The entry point.  [serial] and [mtx] are the handles the firmware hands
    out; [early] are the callbacks that fire between their registration and
    the first test of [running]. *)
Definition bgw_flipper_ir_serial_app (serial mtx : nat) (early : list Event)
    (rounds : list (list Event)) : option AppResult :=
  match main_loop rounds (run early (boot serial mtx)) 0 with
  | Some (m, passes) =>
      Some (mkAppResult 0 m (setup_calls ++ loop_calls passes ++ teardown_calls))
  | None => None
  end.

(** The resources the entry point takes and gives back, with the call that
    takes and the call that returns each. *)
Inductive Resource : Type :=
| MutexObject | SerialControl | SerialPort | ViewPort
| GuiRecord | GuiViewPort | Worker | Reception.

Definition takes (r : Resource) (c : MainCall) : bool :=
  match r, c with
  | MutexObject, furi_mutex_alloc
  | SerialControl, furi_hal_serial_control_acquire
  | SerialPort, furi_hal_serial_init _
  | ViewPort, view_port_alloc
  | GuiRecord, gui_record_open
  | GuiViewPort, gui_add_view_port
  | Worker, infrared_worker_alloc
  | Reception, infrared_worker_rx_start => true
  | _, _ => false
  end.

Definition gives_back (r : Resource) (c : MainCall) : bool :=
  match r, c with
  | MutexObject, furi_mutex_free
  | SerialControl, furi_hal_serial_control_release
  | SerialPort, furi_hal_serial_deinit
  | ViewPort, view_port_free
  | GuiRecord, gui_record_close
  | GuiViewPort, gui_remove_view_port
  | Worker, infrared_worker_free
  | Reception, infrared_worker_rx_stop => true
  | _, _ => false
  end.

(** Whether [r] is held after the calls [cs]; [None] when it is taken while
    held or given back while not held. *)
Fixpoint resource_discipline (r : Resource) (cs : list MainCall) (held : bool)
  : option bool :=
  match cs with
  | [] => Some held
  | c :: cs' =>
      if takes r c
      then (if held then None else resource_discipline r cs' true)
      else if gives_back r c
           then (if held then resource_discipline r cs' false else None)
           else resource_discipline r cs' held
  end.

Fixpoint all_digits (s : string) : bool :=
  match s with
  | EmptyString => true
  | String c s' => is_digit c && all_digits s'
  end.

(** * Properties *)

(** ** Machine words *)

Lemma wrap_in_range (x : Z) : U32.in_range (U32.wrap x).
Proof.
  unfold U32.in_range, U32.wrap, U32.modulus.
  apply Z.mod_pos_bound. reflexivity.
Qed.

Lemma wrap_small (x : Z) : U32.in_range x -> U32.wrap x = x.
Proof.
  unfold U32.in_range, U32.wrap. intros H. now apply Z.mod_small.
Qed.

Lemma log2_below_32 (a : Z) : U32.in_range a -> Z.log2 a < 32.
Proof.
  unfold U32.in_range, U32.modulus. intros [Ha0 Ha].
  destruct (Z.eq_dec a 0) as [->|Hne].
  - reflexivity.
  - apply Z.log2_lt_pow2; lia.
Qed.

Lemma lxor_in_range (a b : Z) :
  U32.in_range a -> U32.in_range b -> U32.in_range (Z.lxor a b).
Proof.
  intros Ha Hb.
  assert (H0 : 0 <= Z.lxor a b)
    by (apply Z.lxor_nonneg; unfold U32.in_range in *; lia).
  split; [exact H0|].
  destruct (Z.eq_dec (Z.lxor a b) 0) as [->|Hne]; [reflexivity|].
  unfold U32.modulus. apply Z.log2_lt_pow2; [lia|].
  pose proof (Z.log2_lxor a b) as Hl.
  pose proof (log2_below_32 a Ha). pose proof (log2_below_32 b Hb).
  unfold U32.in_range in *. lia.
Qed.

(** ** generate_rng *)


(** The loop, entered at index [length done] with the pulses [todo] still
    to visit, folds [todo] with the indices that follow [done]. *)
Lemma generate_rng_loop_fold (todo done : list Z) (seed : Z) :
  generate_rng_loop (done ++ todo) (List.length todo)
                    (Z.of_nat (List.length done)) seed
  = fold_left mix_step
      (combine (map Z.of_nat (seq (List.length done) (List.length todo))) todo)
      seed.
Proof.
  revert done seed.
  induction todo as [|d todo IH]; intros done seed.
  - reflexivity.
  - cbn [List.length generate_rng_loop seq map combine fold_left].
    rewrite Nat2Z.id, app_nth2 by lia.
    rewrite Nat.sub_diag. cbn [nth].
    specialize (IH (done ++ [d])%list
                   (Z.lxor seed (U32.add d (Z.of_nat (List.length done))))).
    rewrite <- app_assoc in IH. cbn [app] in IH.
    rewrite length_app in IH. cbn [List.length] in IH.
    replace (Z.of_nat (List.length done + 1)) with
      (Z.of_nat (List.length done) + 1) in IH by lia.
    rewrite IH.
    replace (List.length done + 1)%nat with (S (List.length done)) by lia.
    reflexivity.
Qed.

Lemma fold_mix_step_exact (l : list (Z * Z)) (seed : Z) :
  Forall (fun id => U32.in_range (snd id + fst id)) l ->
  fold_left mix_step l seed
  = fold_left (fun acc id => Z.lxor acc (snd id + fst id)) l seed.
Proof.
  intros Hl. revert seed.
  induction Hl as [|id l Hid _ IH]; intros seed; cbn [fold_left].
  - reflexivity.
  - unfold mix_step at 2. unfold U32.add.
    rewrite (wrap_small _ Hid). apply IH.
Qed.

Lemma generate_rng_loop_in_range (times : list Z) (k : nat) (i seed : Z) :
  U32.in_range seed -> U32.in_range (generate_rng_loop times k i seed).
Proof.
  revert i seed.
  induction k as [|k IH]; intros i seed Hs; cbn [generate_rng_loop].
  - exact Hs.
  - apply IH, lxor_in_range; [exact Hs | apply wrap_in_range].
Qed.


(** The value returned is a [uint32_t]. *)
Lemma generate_rng_in_range (times : list Z) (hw_random cyccnt : Z) :
  U32.in_range hw_random -> U32.in_range cyccnt ->
  U32.in_range (generate_rng times hw_random cyccnt).
Proof.
  intros Hh Hc. unfold generate_rng.
  apply generate_rng_loop_in_range, lxor_in_range; assumption.
Qed.

(** C1: for every pulse sequence and every pair of hardware values,
    [generate_rng] returns the fold that starts from [hw_seed XOR
    cycle_counter] and, for the pulse of duration [d] at index [i], replaces
    the seed by [seed XOR (d + i)] (in 32-bit arithmetic); on the empty
    sequence it returns [hw_seed XOR cycle_counter] itself. *)
Theorem generate_rng_is_mix (pulses : list Z) (hw_seed cycle_counter : Z) :
  generate_rng pulses hw_seed cycle_counter = mix pulses hw_seed cycle_counter
  /\ generate_rng [] hw_seed cycle_counter = Z.lxor hw_seed cycle_counter.
Proof.
  split.
  - unfold generate_rng, mix, indexed.
    exact (generate_rng_loop_fold pulses [] (Z.lxor hw_seed cycle_counter)).
  - reflexivity.
Qed.

(** The end-to-end scenario of the specification, folded by hand:
    0x100F xor 100 xor 201 xor 152. *)
Example generate_rng_scenario :
  generate_rng [100; 200; 150] 4096 15 = 4154.
Proof. reflexivity. Qed.

(** When no sum [d + i] leaves the 32-bit range, the wrap-around plays no
    part. *)
Lemma generate_rng_no_overflow (pulses : list Z) (hw_seed cycle_counter : Z) :
  Forall (fun id => U32.in_range (snd id + fst id)) (indexed pulses) ->
  generate_rng pulses hw_seed cycle_counter
  = mix_unbounded pulses hw_seed cycle_counter.
Proof.
  intros H.
  unfold generate_rng, mix_unbounded, indexed.
  pose proof (generate_rng_loop_fold pulses [] (Z.lxor hw_seed cycle_counter))
    as Hloop.
  cbn [app List.length Z.of_nat] in Hloop. rewrite Hloop.
  now apply fold_mix_step_exact.
Qed.

(** ** Formatting *)

Lemma substring_all (s : string) (n : nat) :
  (String.length s <= n)%nat -> substring 0 n s = s.
Proof.
  revert n. induction s as [|c s IH]; intros n Hn.
  - destruct n; reflexivity.
  - destruct n as [|n]; cbn [String.length] in Hn; [lia|].
    cbn [substring]. f_equal. apply IH. lia.
Qed.

Lemma length_append (s t : string) :
  String.length (s ++ t) = (String.length s + String.length t)%nat.
Proof.
  induction s as [|c s IH]; cbn [append String.length]; [reflexivity|].
  now rewrite IH.
Qed.

Lemma utoa_loop_length (fuel : nat) (n : Z) (acc : string) :
  (String.length (utoa_loop fuel n acc) <= fuel + String.length acc)%nat.
Proof.
  revert n acc. induction fuel as [|fuel IH]; intros n acc; cbn [utoa_loop].
  - lia.
  - destruct (n / 10 =? 0).
    + cbn [String.length]. lia.
    + specialize (IH (n / 10) (String (digit_char (n mod 10)) acc)).
      cbn [String.length] in IH. lia.
Qed.

Lemma utoa_length (n : Z) : (String.length (utoa n) <= 20)%nat.
Proof.
  unfold utoa. pose proof (utoa_loop_length 20 n EmptyString) as H.
  cbn [String.length] in H. lia.
Qed.

(** The record always fits the 64-byte buffer, so [snprintf] truncates
    nothing and the [len] bytes handed to the sinks are the whole record. *)
Lemma snprintf_record (rng : Z) :
  let text := ("RNG:" ++ utoa rng ++ LF)%string in
  snprintf MAX_BUF text = (text, String.length text)
  /\ substring 0 (String.length text) text = text.
Proof.
  intros text.
  assert (Hlen : (String.length text <= 25)%nat).
  { unfold text. rewrite !length_append.
    pose proof (utoa_length rng). cbn [String.length LF]. lia. }
  split.
  - unfold snprintf. f_equal. apply substring_all. unfold MAX_BUF. lia.
  - apply substring_all. lia.
Qed.

Lemma digit_value_char (d : Z) : 0 <= d < 10 -> digit_value (digit_char d) = d.
Proof.
  intros Hd. unfold digit_value, digit_char.
  rewrite nat_ascii_embedding by lia. lia.
Qed.

Lemma atou_utoa_loop (fuel : nat) (n : Z) (acc : string) :
  0 <= n < 10 ^ Z.of_nat fuel ->
  atou_loop (utoa_loop fuel n acc) 0 = atou_loop acc n.
Proof.
  revert n acc. induction fuel as [|fuel IH]; intros n acc Hn.
  - cbn in Hn. cbn [utoa_loop]. f_equal. lia.
  - cbn [utoa_loop].
    rewrite Nat2Z.inj_succ, Z.pow_succ_r in Hn by lia.
    pose proof (Z.mod_pos_bound n 10 ltac:(lia)) as Hd.
    pose proof (Z.div_mod n 10 ltac:(lia)) as Hdm.
    destruct (Z.eqb_spec (n / 10) 0) as [Hz|Hnz].
    + cbn [atou_loop]. rewrite digit_value_char by exact Hd.
      f_equal. lia.
    + rewrite IH.
      * cbn [atou_loop]. rewrite digit_value_char by exact Hd.
        f_equal. lia.
      * split; [apply Z.div_pos; lia|].
        apply Z.div_lt_upper_bound; lia.
Qed.

(** The digits printed for a [uint32_t] read back as that number. *)
Lemma atou_utoa (n : Z) : U32.in_range n -> atou (utoa n) = n.
Proof.
  intros [H0 H1]. unfold atou, utoa.
  rewrite atou_utoa_loop; [reflexivity|].
  unfold U32.modulus in H1.
  change (10 ^ Z.of_nat 20) with 100000000000000000000. lia.
Qed.

(** ** process_ir and ir_callback *)

Lemma process_ir_body_record (rng : Z) :
  process_ir_body rng
  = [ fun m => emit [furi_hal_serial_tx (serial_handle (st m)) (rng_record rng)] m;
      fun m => if log_to_file (st m)
               then emit (log_calls (rng_record rng)) m
               else m;
      update (set_last_rng rng) ].
Proof.
  unfold process_ir_body, rng_record.
  destruct (snprintf_record rng) as [Hbuf Hlen].
  rewrite Hbuf, Hlen. reflexivity.
Qed.

(** What one run of [process_ir] does, all at once. *)
Lemma process_ir_result (rng : Z) (m : Machine) :
  process_ir rng m
  = mkMachine
      (set_last_rng rng (st m))
      (calls m
       ++ furi_hal_serial_tx (serial_handle (st m)) (rng_record rng)
          :: (if log_to_file (st m) then log_calls (rng_record rng) else [])).
Proof.
  unfold process_ir. rewrite process_ir_body_record.
  unfold exec, emit, update. cbn [fold_left st calls].
  destruct (log_to_file (st m)); cbn [st calls].
  - rewrite <- app_assoc. reflexivity.
  - reflexivity.
Qed.

Lemma ir_callback_result (times : list Z) (hw_random cyccnt : Z) (m : Machine) :
  let rng := generate_rng times hw_random cyccnt in
  ir_callback times hw_random cyccnt m
  = mkMachine
      (set_last_rng rng (st m))
      (calls m
       ++ furi_mutex_acquire (mutex (st m))
          :: furi_hal_serial_tx (serial_handle (st m)) (rng_record rng)
          :: (if log_to_file (st m) then log_calls (rng_record rng) else [])
          ++ [furi_mutex_release (mutex (st m))]).
Proof.
  intros rng. unfold ir_callback. fold rng.
  rewrite process_ir_result. unfold emit. cbn [st calls set_last_rng mutex
    serial_handle log_to_file].
  f_equal. rewrite <- !app_assoc. reflexivity.
Qed.

Lemma new_calls_app (m : Machine) (s : FlameTunnelState) (cs : list Call) :
  new_calls m (mkMachine s (calls m ++ cs)) = cs.
Proof.
  unfold new_calls. cbn [calls].
  rewrite skipn_app, skipn_all, Nat.sub_diag. reflexivity.
Qed.

Lemma last_tx_app_tx (cs rest : list Call) (h : nat) (buf : string) :
  last_tx rest = None ->
  last_tx (cs ++ furi_hal_serial_tx h buf :: rest) = Some buf.
Proof.
  intros Hrest. induction cs as [|c cs IH]; cbn [app last_tx].
  - rewrite Hrest. reflexivity.
  - rewrite IH. reflexivity.
Qed.

(** C10: the infrared path changes no field of the state other than
    [last_rng]: [running], [in_menu], [log_to_file] and both press timestamps
    (and the two handles) are as they were, for [process_ir] and for the
    callback that wraps it. *)
Theorem process_ir_frame (rng : Z) (times : list Z) (hw_random cyccnt : Z)
    (m : Machine) :
  let after := st (process_ir rng m) in
  let after_cb := st (ir_callback times hw_random cyccnt m) in
  (running after = running (st m)
   /\ in_menu after = in_menu (st m)
   /\ log_to_file after = log_to_file (st m)
   /\ back_pressed_time after = back_pressed_time (st m)
   /\ ok_pressed_time after = ok_pressed_time (st m)
   /\ serial_handle after = serial_handle (st m)
   /\ mutex after = mutex (st m))
  /\ after = set_last_rng rng (st m)
  /\ after_cb = set_last_rng (generate_rng times hw_random cyccnt) (st m).
Proof.
  cbv zeta. rewrite process_ir_result, ir_callback_result.
  cbn [st set_last_rng running in_menu log_to_file back_pressed_time
       ok_pressed_time serial_handle mutex].
  repeat split.
Qed.

(** C8: inside [process_ir] the writes to the sinks come before the store.
    After the first statement the call log has gained the serial
    transmission of the record and the state is the state on entry; after
    the second it has gained, when [log_to_file] is set, the opening of the
    log file, the [stream_write] of the same record and the closing (and
    nothing when it is clear), and the state is still the state on entry;
    the last statement adds no call and only stores [rng].  So on return
    [last_rng] is the value whose record was transmitted last. *)
Theorem process_ir_writes_before_store (rng : Z) (m : Machine) :
  let record := rng_record rng in
  let serial_write := furi_hal_serial_tx (serial_handle (st m)) record in
  let log_write :=
    if log_to_file (st m)
    then [ furi_record_open RECORD_STORAGE;
           file_stream_alloc;
           file_stream_open LOG_PATH FSAM_WRITE FSOM_OPEN_ALWAYS;
           stream_write record;
           file_stream_close;
           furi_record_close RECORD_STORAGE ]
    else [] in
  (st (process_ir_upto 0 rng m) = st m
   /\ st (process_ir_upto 1 rng m) = st m
   /\ st (process_ir_upto 2 rng m) = st m)
  /\ (calls (process_ir_upto 0 rng m) = calls m
      /\ calls (process_ir_upto 1 rng m) = (calls m ++ [serial_write])%list
      /\ calls (process_ir_upto 2 rng m)
         = (calls m ++ serial_write :: log_write)%list)
  /\ calls (process_ir_upto 2 rng m) = calls (process_ir rng m)
  /\ process_ir rng m = update (set_last_rng rng) (process_ir_upto 2 rng m)
  /\ last_rng (st (process_ir rng m)) = rng
  /\ last_tx (calls (process_ir rng m))
     = Some (rng_record (last_rng (st (process_ir rng m)))).
Proof.
  cbv zeta.
  assert (Hupto : forall k, (k < 3)%nat ->
            st (process_ir_upto k rng m) = st m).
  { intros k Hk. unfold process_ir_upto. rewrite process_ir_body_record.
    destruct k as [|[|[|k]]]; try lia;
      unfold exec, emit; cbn [firstn fold_left st];
      try reflexivity.
    destruct (log_to_file (st m)); reflexivity. }
  assert (Hsplit : process_ir rng m
                   = update (set_last_rng rng) (process_ir_upto 2 rng m)).
  { unfold process_ir, process_ir_upto. rewrite process_ir_body_record.
    reflexivity. }
  split; [|split; [|split; [|split; [|split]]]].
  - repeat split; apply Hupto; lia.
  - unfold process_ir_upto. rewrite process_ir_body_record.
    unfold exec, emit. cbn [firstn fold_left st calls].
    split; [reflexivity|split; [reflexivity|]].
    destruct (log_to_file (st m)); cbn [st calls log_calls].
    + rewrite <- app_assoc. reflexivity.
    + reflexivity.
  - rewrite Hsplit. reflexivity.
  - exact Hsplit.
  - rewrite process_ir_result. reflexivity.
  - rewrite process_ir_result. cbn [st calls set_last_rng last_rng].
    apply last_tx_app_tx.
    destruct (log_to_file (st m)); reflexivity.
Qed.

(** ** The log file *)

Lemma put_file_same (path content : string) (fs : string -> option string) :
  put_file path content fs path = Some content.
Proof. unfold put_file. now rewrite String.eqb_refl. Qed.

Lemma serial_output_app (cs cs' : list Call) :
  serial_output (cs ++ cs') = (serial_output cs ++ serial_output cs')%string.
Proof.
  induction cs as [|c cs IH]; cbn [app serial_output]; [reflexivity|].
  destruct c; try exact IH.
  rewrite IH. clear IH.
  induction buf as [|a buf IHb]; cbn [append]; [reflexivity|].
  now rewrite IHb.
Qed.

Lemma append_empty_r (s : string) : (s ++ EmptyString)%string = s.
Proof. induction s as [|c s IH]; cbn [append]; [reflexivity|now rewrite IH]. Qed.

(** Every infrared event puts exactly the record on the serial port. *)
Lemma process_ir_serial_output (rng : Z) (m : Machine) :
  serial_output (new_calls m (process_ir rng m)) = rng_record rng.
Proof.
  rewrite process_ir_result, new_calls_app.
  cbn [serial_output].
  destruct (log_to_file (st m)); cbn [log_calls serial_output];
    apply append_empty_r.
Qed.

(** With logging disabled the storage is not touched. *)
Lemma process_ir_log_disabled (rng : Z) (m : Machine) (sto : Storage) :
  log_to_file (st m) = false ->
  storage_after (new_calls m (process_ir rng m)) sto = sto.
Proof.
  intros Hoff. rewrite process_ir_result, new_calls_app, Hoff. reflexivity.
Qed.

(** With logging enabled the file is opened, written and closed within the
    event; the record lands at offset 0 of an existing file, over what was
    there. *)
Lemma process_ir_log_enabled (rng : Z) (m : Machine) (sto : Storage) (old : string) :
  log_to_file (st m) = true ->
  files sto LOG_PATH = Some old ->
  let sto' := storage_after (new_calls m (process_ir rng m)) sto in
  stream sto' = None
  /\ files sto' LOG_PATH = Some (write_at 0 (rng_record rng) old).
Proof.
  intros Hon Hold. cbv zeta.
  rewrite process_ir_result, new_calls_app, Hon.
  unfold storage_after, log_calls.
  cbn [fold_left storage_call storage_open].
  rewrite Hold. unfold storage_write. cbn [stream files].
  rewrite Hold. cbn [stream files].
  split; [reflexivity|apply put_file_same].
Qed.

(** C4: with logging enabled and one record already in the log file, the
    next infrared event opens the file with [FSOM_OPEN_ALWAYS] and leaves
    only the new record in it; the earlier record is overwritten, not
    appended to. *)
Theorem log_record_overwrites_previous :
  let m := mkMachine (set_log_to_file true (initial_state 0 0)) [] in
  let sto := mkStorage (put_file LOG_PATH (rng_record 7) (fun _ => None)) None in
  let added := new_calls m (process_ir 5 m) in
  In (file_stream_open LOG_PATH FSAM_WRITE FSOM_OPEN_ALWAYS) added
  /\ serial_output added = rng_record 5
  /\ files (storage_after added sto) LOG_PATH = Some (rng_record 5)
  /\ files (storage_after added sto) LOG_PATH
     <> Some (rng_record 7 ++ rng_record 5)%string.
Proof.
  cbv zeta. split; [|split; [|split]].
  - vm_compute. tauto.
  - vm_compute. reflexivity.
  - vm_compute. reflexivity.
  - vm_compute. discriminate.
Qed.

(** ** input_cb *)

Lemma sub_no_wrap (t0 t1 : Z) :
  0 <= t0 <= t1 -> t1 < U32.modulus -> U32.sub t1 t0 = t1 - t0.
Proof.
  intros H01 H1. unfold U32.sub. apply wrap_small.
  unfold U32.in_range. lia.
Qed.

(** Case analysis over the branches of [input_cb]. *)
Ltac input_cb_cases :=
  unfold input_cb, update; cbn [key type st calls];
  repeat match goal with
         | |- context [HOLD_TIME_MS <=? ?d] => destruct (HOLD_TIME_MS <=? d)
         | |- context [in_menu ?s && _] => destruct (in_menu s)
         end;
  cbn [andb InputKey_eqb st calls].

Lemma input_cb_calls (ev : InputEvent) (now : Z) (m : Machine) :
  calls (input_cb ev now m) = calls m.
Proof.
  destruct ev as [k t]; destruct t, k; input_cb_cases; reflexivity.
Qed.

(** The three conditions of the release branch, read off one by one. *)
Lemma release_back (now : Z) (m : Machine) :
  input_cb (release InputKeyBack) now m
  = if HOLD_TIME_MS <=? U32.sub now (back_pressed_time (st m))
    then update (set_running false) m
    else m.
Proof.
  unfold input_cb, release; cbn [key type InputKey_eqb andb].
  destruct (HOLD_TIME_MS <=? _); [reflexivity|].
  now rewrite andb_false_r.
Qed.

Lemma release_ok (now : Z) (m : Machine) :
  input_cb (release InputKeyOk) now m
  = if HOLD_TIME_MS <=? U32.sub now (ok_pressed_time (st m))
    then update (set_in_menu (negb (in_menu (st m)))) m
    else if in_menu (st m)
         then update (set_log_to_file (negb (log_to_file (st m)))) m
         else m.
Proof.
  unfold input_cb, release; cbn [key type InputKey_eqb andb].
  destruct (HOLD_TIME_MS <=? _); [reflexivity|].
  now rewrite andb_true_r.
Qed.

Lemma release_other (k : InputKey) (now : Z) (m : Machine) :
  k <> InputKeyBack -> k <> InputKeyOk ->
  input_cb (release k) now m = m.
Proof.
  intros Hb Ho. destruct k; try congruence;
    unfold input_cb, release; cbn [key type InputKey_eqb andb];
    now rewrite andb_false_r.
Qed.

Lemma press_back (now : Z) (m : Machine) :
  input_cb (press InputKeyBack) now m = update (set_back_pressed_time now) m.
Proof. reflexivity. Qed.

Lemma press_ok (now : Z) (m : Machine) :
  input_cb (press InputKeyOk) now m = update (set_ok_pressed_time now) m.
Proof. reflexivity. Qed.

Lemma draw_st (m : Machine) : st (draw m) = st m.
Proof. unfold draw. destruct (in_menu (st m)); reflexivity. Qed.

Lemma input_cb_keeps_stopped (ev : InputEvent) (now : Z) (m : Machine) :
  running (st m) = false -> running (st (input_cb ev now m)) = false.
Proof.
  intros Hstop.
  destruct ev as [k t]; destruct t, k; input_cb_cases;
    cbn [running set_running set_in_menu set_log_to_file
         set_back_pressed_time set_ok_pressed_time];
    solve [exact Hstop | reflexivity].
Qed.

Lemma handle_keeps_stopped (e : Event) (m : Machine) :
  running (st m) = false -> running (st (handle e m)) = false.
Proof.
  intros Hstop. destruct e as [times hw cyc|ev now|]; cbn [handle].
  - rewrite ir_callback_result. exact Hstop.
  - now apply input_cb_keeps_stopped.
  - now rewrite draw_st.
Qed.

(** C5: once [running] is false, no sequence of infrared events, input
    events and render ticks makes it true again. *)
Theorem running_false_is_terminal (es : list Event) (m : Machine) :
  running (st m) = false -> running (st (run es m)) = false.
Proof.
  revert m. induction es as [|e es IH]; intros m Hstop; cbn [run fold_left].
  - exact Hstop.
  - apply IH. now apply handle_keeps_stopped.
Qed.

Lemma running_false_is_terminal_witness :
  let m := input_cb (release InputKeyBack) 1000 (boot 0 0) in
  let es := [Infrared [100; 200; 150] 4096 15;
             Input (press InputKeyOk) 1500; Input (release InputKeyOk) 2600;
             Input (press InputKeyBack) 3000; Input (release InputKeyBack) 3100;
             RenderTick] in
  running (st m) = false /\ running (st (run es m)) = false.
Proof.
  cbv zeta. split.
  - reflexivity.
  - apply running_false_is_terminal. reflexivity.
Defined.

(** C2, as the code has it: a release never clears or changes a stored
    press timestamp (which is 0 before the first press); a release of Back,
    or of Ok while the mode is Normal, is ignored (same state, no call) when
    the tick difference to the stored timestamp, modulo 2^32, is below
    [HOLD_TIME_MS]. *)
Theorem release_below_hold_time_ignored (k : InputKey) (now : Z) (m : Machine) :
  (back_pressed_time (st (input_cb (release k) now m)) = back_pressed_time (st m)
   /\ ok_pressed_time (st (input_cb (release k) now m)) = ok_pressed_time (st m))
  /\ (U32.sub now (back_pressed_time (st m)) < HOLD_TIME_MS ->
      input_cb (release InputKeyBack) now m = m)
  /\ (U32.sub now (ok_pressed_time (st m)) < HOLD_TIME_MS ->
      in_menu (st m) = false ->
      input_cb (release InputKeyOk) now m = m).
Proof.
  split; [|split].
  - destruct k; unfold release; input_cb_cases; split; reflexivity.
  - intros Hshort. rewrite release_back.
    destruct (Z.leb_spec HOLD_TIME_MS (U32.sub now (back_pressed_time (st m))));
      [lia|reflexivity].
  - intros Hshort Hnormal. rewrite release_ok, Hnormal.
    destruct (Z.leb_spec HOLD_TIME_MS (U32.sub now (ok_pressed_time (st m))));
      [lia|reflexivity].
Qed.

Lemma release_below_hold_time_ignored_witness :
  input_cb (release InputKeyBack) 999 (boot 0 0) = boot 0 0
  /\ input_cb (release InputKeyOk) 999 (boot 0 0) = boot 0 0.
Proof.
  destruct (release_below_hold_time_ignored InputKeyBack 999 (boot 0 0))
    as (_ & Hback & Hok).
  split.
  - apply Hback. reflexivity.
  - apply Hok; reflexivity.
Defined.

(** C2 as stated fails: in the freshly booted state, where no press was
    ever recorded, a Back release at tick 1000 stops the application; and
    after Ok is pressed at tick 500 and released at tick 1500 the stored
    timestamp is still 500, so a second Ok release at tick 2500, with no
    press in between, toggles the mode once more. *)
Lemma release_without_press_not_ignored :
  st (input_cb (release InputKeyBack) 1000 (boot 0 0)) <> st (boot 0 0)
  /\ (let m := run [Input (press InputKeyOk) 500; Input (release InputKeyOk) 1500]
                   (boot 0 0) in
      ok_pressed_time (st m) = 500
      /\ st (input_cb (release InputKeyOk) 2500 m) <> st m).
Proof.
  cbv zeta. split; [|split].
  - vm_compute. discriminate.
  - reflexivity.
  - vm_compute. discriminate.
Qed.

(** C3: for K in {Back, Ok}, a press at [t0] followed by the release at
    [t1] is held exactly from [t1 - t0 = 1000] on: a held Back clears
    [running], a held Ok toggles the mode, and below 1000 ms neither
    [running] nor the mode changes. *)
Theorem hold_threshold_inclusive (k : InputKey) (t0 t1 : Z) (m : Machine) :
  k = InputKeyBack \/ k = InputKeyOk ->
  0 <= t0 <= t1 -> t1 < U32.modulus ->
  let pressed := input_cb (press k) t0 m in
  let released := input_cb (release k) t1 pressed in
  (HOLD_TIME_MS <= t1 - t0 ->
   (k = InputKeyBack ->
    running (st released) = false /\ in_menu (st released) = in_menu (st m))
   /\ (k = InputKeyOk ->
       in_menu (st released) = negb (in_menu (st m))
       /\ running (st released) = running (st m)))
  /\ (t1 - t0 < HOLD_TIME_MS ->
      running (st released) = running (st m)
      /\ in_menu (st released) = in_menu (st m)).
Proof.
  intros Hk H01 H1. cbv zeta.
  pose proof (sub_no_wrap t0 t1 H01 H1) as Hsub.
  destruct Hk as [-> | ->].
  - rewrite press_back, release_back.
    cbn [update st back_pressed_time set_back_pressed_time]. rewrite Hsub.
    destruct (Z.leb_spec HOLD_TIME_MS (t1 - t0)); split; intros Hcmp;
      try lia.
    + split; [intros _; split; reflexivity | discriminate].
    + split; reflexivity.
  - rewrite press_ok, release_ok.
    cbn [update st ok_pressed_time set_ok_pressed_time in_menu]. rewrite Hsub.
    destruct (Z.leb_spec HOLD_TIME_MS (t1 - t0)); split; intros Hcmp;
      try lia.
    + split; [discriminate | intros _; split; reflexivity].
    + destruct (in_menu (st m)) eqn:Hmenu;
        cbn [update st running in_menu set_log_to_file set_ok_pressed_time];
        rewrite ?Hmenu; split; reflexivity.
Qed.

Lemma hold_threshold_inclusive_witness :
  (let released := input_cb (release InputKeyBack) 6000
                     (input_cb (press InputKeyBack) 5000 (boot 0 0)) in
   running (st released) = false /\ in_menu (st released) = false)
  /\ (let released := input_cb (release InputKeyOk) 5999
                        (input_cb (press InputKeyOk) 5000 (boot 0 0)) in
      running (st released) = true /\ in_menu (st released) = false).
Proof.
  split.
  - refine (proj1 (proj1 (hold_threshold_inclusive InputKeyBack 5000 6000
                            (boot 0 0) _ _ _) _) eq_refl);
      first [left; reflexivity | unfold HOLD_TIME_MS, U32.modulus; lia].
  - refine (proj2 (hold_threshold_inclusive InputKeyOk 5000 5999
                     (boot 0 0) _ _ _) _);
      first [right; reflexivity | unfold HOLD_TIME_MS, U32.modulus; lia].
Defined.

(** C6: while the mode is Normal, a short release of Ok (the gesture that
    toggles logging in the menu) changes nothing: [log_to_file] and every
    other field keep their values, and no call is made. *)
Theorem short_ok_release_in_normal_mode_is_noop (now : Z) (m : Machine) :
  in_menu (st m) = false ->
  U32.sub now (ok_pressed_time (st m)) < HOLD_TIME_MS ->
  input_cb (release InputKeyOk) now m = m
  /\ log_to_file (st (input_cb (release InputKeyOk) now m)) = log_to_file (st m).
Proof.
  intros Hnormal Hshort.
  assert (Hsame : input_cb (release InputKeyOk) now m = m).
  { rewrite release_ok, Hnormal.
    destruct (Z.leb_spec HOLD_TIME_MS (U32.sub now (ok_pressed_time (st m))));
      [lia|reflexivity]. }
  split; [exact Hsame | now rewrite Hsame].
Qed.

Lemma short_ok_release_in_normal_mode_is_noop_witness :
  let m := input_cb (press InputKeyOk) 7000 (boot 0 0) in
  input_cb (release InputKeyOk) 7200 m = m
  /\ log_to_file (st (input_cb (release InputKeyOk) 7200 m)) = log_to_file (st m).
Proof.
  cbv zeta.
  apply short_ok_release_in_normal_mode_is_noop; reflexivity.
Defined.

(** C7: a release event takes at most one action: the state afterwards is
    the state before, or differs from it in exactly one of [running]
    (cleared), the mode (toggled) and [log_to_file] (toggled).  A held Ok
    release only toggles the mode, also in the menu, and a held Back release
    only clears [running]. *)
Theorem one_action_per_release (k : InputKey) (now : Z) (m : Machine) :
  let s := st m in
  let s' := st (input_cb (release k) now m) in
  (s' = s
   \/ s' = set_running false s
   \/ s' = set_in_menu (negb (in_menu s)) s
   \/ s' = set_log_to_file (negb (log_to_file s)) s)
  /\ (HOLD_TIME_MS <= U32.sub now (ok_pressed_time s) ->
      st (input_cb (release InputKeyOk) now m)
      = set_in_menu (negb (in_menu s)) s)
  /\ (HOLD_TIME_MS <= U32.sub now (back_pressed_time s) ->
      st (input_cb (release InputKeyBack) now m) = set_running false s).
Proof.
  cbv zeta. split; [|split].
  - destruct k;
      try (left; rewrite release_other by discriminate; reflexivity).
    + rewrite release_ok.
      destruct (HOLD_TIME_MS <=? _); [right; right; left; reflexivity|].
      destruct (in_menu (st m)); [right; right; right|left]; reflexivity.
    + rewrite release_back.
      destruct (HOLD_TIME_MS <=? _); [right; left|left]; reflexivity.
  - intros Hheld. rewrite release_ok.
    destruct (Z.leb_spec HOLD_TIME_MS (U32.sub now (ok_pressed_time (st m))));
      [reflexivity|lia].
  - intros Hheld. rewrite release_back.
    destruct (Z.leb_spec HOLD_TIME_MS (U32.sub now (back_pressed_time (st m))));
      [reflexivity|lia].
Qed.

Lemma one_action_per_release_witness :
  let m := mkMachine (mkState 0 true false 0 0 true 100 100) [] in
  (in_menu (st (input_cb (release InputKeyOk) 1100 m)) = false
   /\ log_to_file (st (input_cb (release InputKeyOk) 1100 m)) = false)
  /\ st (input_cb (release InputKeyBack) 1100 m)
     = mkState 0 false false 0 0 true 100 100.
Proof.
  cbv zeta.
  destruct (one_action_per_release InputKeyOk 1100
              (mkMachine (mkState 0 true false 0 0 true 100 100) []))
    as (_ & Hok & Hback).
  split.
  - rewrite Hok by (vm_compute; discriminate). split; reflexivity.
  - rewrite Hback by (vm_compute; discriminate). reflexivity.
Defined.

(** C9: [input_cb] never calls into the firmware, so it acquires no mutex,
    although it writes the shared state (here: a held Back release on the
    booted machine); [ir_callback] brackets its work between
    [furi_mutex_acquire] and [furi_mutex_release] on the same state. *)
Theorem input_cb_mutates_without_mutex :
  (forall ev now m, new_calls m (input_cb ev now m) = [])
  /\ st (input_cb (release InputKeyBack) 1000 (boot 0 7)) <> st (boot 0 7)
  /\ existsb is_mutex_call
       (new_calls (boot 0 7) (input_cb (release InputKeyBack) 1000 (boot 0 7)))
     = false
  /\ (forall times hw_random cyccnt m,
        exists inner,
          new_calls m (ir_callback times hw_random cyccnt m)
          = furi_mutex_acquire (mutex (st m)) :: inner
            ++ [furi_mutex_release (mutex (st m))]
          /\ existsb is_mutex_call inner = false).
Proof.
  split; [|split; [|split]].
  - intros ev now m. unfold new_calls. rewrite input_cb_calls.
    apply skipn_all.
  - vm_compute. discriminate.
  - reflexivity.
  - intros times hw cyc m.
    exists (furi_hal_serial_tx (serial_handle (st m))
              (rng_record (generate_rng times hw cyc))
            :: (if log_to_file (st m)
                then log_calls (rng_record (generate_rng times hw cyc))
                else [])).
    rewrite ir_callback_result, new_calls_app.
    split; [reflexivity|].
    destruct (log_to_file (st m)); reflexivity.
Qed.

(** * Further properties of the handlers *)

(** ** generate_rng *)

Lemma generate_rng_loop_seed (times : list Z) (k : nat) (i seed : Z) :
  generate_rng_loop times k i seed
  = Z.lxor seed (generate_rng_loop times k i 0).
Proof.
  revert i seed. induction k as [|k IH]; intros i seed; cbn [generate_rng_loop].
  - now rewrite Z.lxor_0_r.
  - rewrite IH. rewrite (IH (i + 1) (Z.lxor 0 _)).
    rewrite Z.lxor_0_l, Z.lxor_assoc. reflexivity.
Qed.

Lemma generate_rng_loop_prefix (times extra : list Z) (k : nat) (i : nat) (seed : Z) :
  (i + k <= List.length times)%nat ->
  generate_rng_loop (times ++ extra) k (Z.of_nat i) seed
  = generate_rng_loop times k (Z.of_nat i) seed.
Proof.
  revert i seed. induction k as [|k IH]; intros i seed Hik;
    cbn [generate_rng_loop]; [reflexivity|].
  rewrite Nat2Z.id, app_nth1 by lia.
  replace (Z.of_nat i + 1) with (Z.of_nat (S i)) by lia.
  apply IH. lia.
Qed.

Lemma generate_rng_loop_split (times : list Z) (a b : nat) (i seed : Z) :
  generate_rng_loop times (a + b) i seed
  = generate_rng_loop times b (i + Z.of_nat a) (generate_rng_loop times a i seed).
Proof.
  revert i seed. induction a as [|a IH]; intros i seed.
  - cbn [Nat.add generate_rng_loop Z.of_nat]. now rewrite Z.add_0_r.
  - cbn [Nat.add generate_rng_loop]. rewrite IH.
    f_equal. lia.
Qed.

(** X1: whatever the pulse durations are, the value returned for 32-bit
    hardware readings is a 32-bit value. *)
Theorem generate_rng_uint32 (times : list Z) (hw_random cyccnt : Z) :
  U32.in_range hw_random -> U32.in_range cyccnt ->
  U32.in_range (generate_rng times hw_random cyccnt).
Proof.
  intros Hh Hc. unfold generate_rng.
  apply generate_rng_loop_in_range, lxor_in_range; assumption.
Qed.

Lemma generate_rng_uint32_witness :
  U32.in_range (generate_rng [4294967295; 4294967295; 7] 4294967295 1).
Proof.
  apply generate_rng_uint32; unfold U32.in_range, U32.modulus; lia.
Defined.

(** X2: the two hardware readings enter the result only as one XOR mask
    over what the pulses alone give; the pulses' share does not depend on
    them. *)
Theorem generate_rng_seed_is_mask (times : list Z) (hw_random cyccnt : Z) :
  generate_rng times hw_random cyccnt
  = Z.lxor (Z.lxor hw_random cyccnt) (generate_rng times 0 0).
Proof.
  unfold generate_rng. cbn [Z.lxor].
  apply generate_rng_loop_seed.
Qed.

Lemma generate_rng_loop_snoc (times : list Z) (d seed : Z) :
  generate_rng_loop (times ++ [d]) (List.length times + 1) 0 seed
  = Z.lxor (generate_rng_loop times (List.length times) 0 seed)
           (U32.add d (Z.of_nat (List.length times))).
Proof.
  rewrite generate_rng_loop_split.
  pose proof (generate_rng_loop_prefix times [d] (List.length times) 0 seed)
    as Hpre.
  cbn [Z.of_nat] in Hpre. rewrite Hpre by lia.
  cbn [generate_rng_loop]. rewrite Z.add_0_l, Nat2Z.id.
  rewrite app_nth2, Nat.sub_diag by lia. reflexivity.
Qed.

(** X3: one more pulse at the end XORs its duration plus its index (the
    old length) into the value of the shorter signal. *)
Theorem generate_rng_snoc (times : list Z) (d hw_random cyccnt : Z) :
  generate_rng (times ++ [d]) hw_random cyccnt
  = Z.lxor (generate_rng times hw_random cyccnt)
           (U32.add d (Z.of_nat (List.length times))).
Proof.
  unfold generate_rng. rewrite length_app. cbn [List.length].
  apply generate_rng_loop_snoc.
Qed.

(** X4: two consecutive pulses of which the first is one unit longer than
    the second cancel each other: the value is that of the signal without
    them, wherever the pair comes last. *)
Theorem generate_rng_cancelling_pair (times : list Z) (d hw_random cyccnt : Z) :
  generate_rng (times ++ [d + 1; d]) hw_random cyccnt
  = generate_rng times hw_random cyccnt.
Proof.
  change (times ++ [d + 1; d])%list with (times ++ [d + 1] ++ [d])%list.
  rewrite app_assoc. unfold generate_rng.
  rewrite (length_app (times ++ [d + 1]) [d]).
  change (List.length [d]) with 1%nat.
  rewrite generate_rng_loop_snoc, length_app.
  change (List.length [d + 1]) with 1%nat.
  rewrite generate_rng_loop_snoc, Z.lxor_assoc.
  replace (U32.add d (Z.of_nat (List.length times + 1)))
    with (U32.add (d + 1) (Z.of_nat (List.length times))).
  - now rewrite Z.lxor_nilpotent, Z.lxor_0_r.
  - unfold U32.add. f_equal. lia.
Qed.

(** ** The record *)

Lemma utoa_loop_length_upper (fuel k : nat) (n : Z) (acc : string) :
  0 <= n < 10 ^ Z.of_nat k -> (1 <= k)%nat ->
  (String.length (utoa_loop fuel n acc) <= k + String.length acc)%nat.
Proof.
  revert k n acc. induction fuel as [|fuel IH]; intros k n acc Hn Hk;
    cbn [utoa_loop].
  - lia.
  - destruct (Z.eqb_spec (n / 10) 0) as [Hz|Hnz].
    + cbn [String.length]. lia.
    + destruct k as [|[|k]]; [lia| |].
      * exfalso. apply Hnz. apply Z.div_small. cbn in Hn. lia.
      * rewrite Nat2Z.inj_succ, Z.pow_succ_r in Hn by lia.
        specialize (IH (S k) (n / 10) (String (digit_char (n mod 10)) acc)).
        cbn [String.length] in IH.
        assert (0 <= n / 10 < 10 ^ Z.of_nat (S k)).
        { split; [apply Z.div_pos; lia|].
          apply Z.div_lt_upper_bound; lia. }
        specialize (IH ltac:(assumption) ltac:(lia)). lia.
Qed.

Lemma utoa_loop_length_lower (fuel : nat) (n : Z) (acc : string) :
  (String.length acc <= String.length (utoa_loop fuel n acc))%nat.
Proof.
  revert n acc. induction fuel as [|fuel IH]; intros n acc; cbn [utoa_loop].
  - lia.
  - destruct (n / 10 =? 0).
    + cbn [String.length]. lia.
    + specialize (IH (n / 10) (String (digit_char (n mod 10)) acc)).
      cbn [String.length] in IH. lia.
Qed.

Lemma utoa_digits (n : Z) :
  U32.in_range n -> (1 <= String.length (utoa n) <= 10)%nat.
Proof.
  intros [H0 H1]. unfold U32.modulus in H1. unfold utoa. split.
  - generalize 19%nat. intros fuel.
    change (utoa_loop (S fuel) n EmptyString)
      with (if n / 10 =? 0
            then String (digit_char (n mod 10)) EmptyString
            else utoa_loop fuel (n / 10)
                   (String (digit_char (n mod 10)) EmptyString)).
    destruct (n / 10 =? 0).
    + cbn [String.length]. lia.
    + pose proof (utoa_loop_length_lower fuel (n / 10)
                    (String (digit_char (n mod 10)) EmptyString)) as H.
      cbn [String.length] in H. lia.
  - pose proof (utoa_loop_length_upper 20 10 n EmptyString) as H.
    cbn [String.length] in H. apply H; [|lia].
    change (10 ^ Z.of_nat 10) with 10000000000. lia.
Qed.

(** X5: the record of a 32-bit value has between 6 and 15 bytes, so the
    [snprintf] into the 64-byte buffer truncates nothing and the [len] bytes
    handed to the sinks are the whole record. *)
Theorem record_fits_buffer (rng : Z) :
  U32.in_range rng ->
  let (buf, len) := snprintf MAX_BUF ("RNG:" ++ utoa rng ++ LF)%string in
  buf = rng_record rng
  /\ substring 0 len buf = rng_record rng
  /\ (6 <= len <= 15)%nat /\ (len < MAX_BUF)%nat.
Proof.
  intros Hr. destruct (snprintf_record rng) as [Hbuf Hsub].
  rewrite Hbuf. fold (rng_record rng) in Hsub |- *.
  assert (Hlen : (6 <= String.length (rng_record rng) <= 15)%nat).
  { unfold rng_record. rewrite !length_append.
    pose proof (utoa_digits rng Hr). cbn [String.length LF]. lia. }
  unfold MAX_BUF. repeat split; try exact Hsub; lia.
Qed.

Lemma record_fits_buffer_witness :
  let (buf, len) := snprintf MAX_BUF ("RNG:" ++ utoa 4294967295 ++ LF)%string in
  buf = rng_record 4294967295
  /\ substring 0 len buf = rng_record 4294967295
  /\ (6 <= len <= 15)%nat /\ (len < MAX_BUF)%nat.
Proof.
  apply (record_fits_buffer 4294967295).
  unfold U32.in_range, U32.modulus. lia.
Defined.

Lemma is_digit_char (d : Z) : 0 <= d < 10 -> is_digit (digit_char d) = true.
Proof.
  intros Hd. unfold is_digit. rewrite digit_value_char by exact Hd.
  apply andb_true_intro. split; [apply Z.leb_le|apply Z.ltb_lt]; lia.
Qed.

Lemma utoa_loop_append (fuel : nat) (n : Z) (acc tail : string) :
  (utoa_loop fuel n acc ++ tail)%string = utoa_loop fuel n (acc ++ tail)%string.
Proof.
  revert n acc. induction fuel as [|fuel IH]; intros n acc; cbn [utoa_loop].
  - reflexivity.
  - destruct (n / 10 =? 0); [reflexivity|].
    rewrite IH. reflexivity.
Qed.

Lemma parse_utoa_loop (fuel : nat) (n : Z) (acc : string) :
  0 <= n < 10 ^ Z.of_nat fuel ->
  parse_digits (utoa_loop fuel n acc) 0 = parse_digits acc n.
Proof.
  revert n acc. induction fuel as [|fuel IH]; intros n acc Hn.
  - cbn in Hn. cbn [utoa_loop]. f_equal. lia.
  - cbn [utoa_loop].
    rewrite Nat2Z.inj_succ, Z.pow_succ_r in Hn by lia.
    pose proof (Z.mod_pos_bound n 10 ltac:(lia)) as Hd.
    pose proof (Z.div_mod n 10 ltac:(lia)) as Hdm.
    destruct (Z.eqb_spec (n / 10) 0) as [Hz|Hnz].
    + cbn [parse_digits]. rewrite is_digit_char, digit_value_char by exact Hd.
      f_equal. lia.
    + rewrite IH.
      * cbn [parse_digits]. rewrite is_digit_char, digit_value_char by exact Hd.
        f_equal. lia.
      * split; [apply Z.div_pos; lia|].
        apply Z.div_lt_upper_bound; lia.
Qed.

Lemma parse_record_rng_record (rng : Z) :
  U32.in_range rng -> parse_record (rng_record rng) = Some rng.
Proof.
  intros [H0 H1]. unfold U32.modulus in H1.
  unfold rng_record, utoa. cbn [append parse_record].
  rewrite utoa_loop_append. cbn [append].
  rewrite parse_utoa_loop; [reflexivity|].
  change (10 ^ Z.of_nat 20) with 100000000000000000000. lia.
Qed.

(** X6: what one infrared event sends on the serial port reads back as the
    value it was given: ["RNG:"], the decimal digits of the value, one line
    feed; so different values give different records. *)
Theorem serial_record_round_trip (rng rng' : Z) (m m' : Machine) :
  U32.in_range rng -> U32.in_range rng' ->
  parse_record (serial_output (new_calls m (process_ir rng m))) = Some rng
  /\ (serial_output (new_calls m (process_ir rng m))
      = serial_output (new_calls m' (process_ir rng' m')) -> rng = rng').
Proof.
  intros Hr Hr'. rewrite !process_ir_serial_output. split.
  - now apply parse_record_rng_record.
  - intros Heq.
    pose proof (parse_record_rng_record rng Hr) as H1.
    pose proof (parse_record_rng_record rng' Hr') as H2.
    rewrite Heq in H1. congruence.
Qed.

Lemma serial_record_round_trip_witness :
  parse_record (serial_output (new_calls (boot 0 0) (process_ir 4154 (boot 0 0))))
  = Some 4154.
Proof.
  refine (proj1 (serial_record_round_trip 4154 0 (boot 0 0) (boot 0 0) _ _));
    unfold U32.in_range, U32.modulus; lia.
Defined.

(** ** What the handlers add to the call log *)

Lemma new_calls_extends (m m' : Machine) (cs : list Call) :
  calls m' = (calls m ++ cs)%list -> new_calls m m' = cs.
Proof.
  intros H. unfold new_calls. rewrite H.
  rewrite skipn_app, skipn_all, Nat.sub_diag. reflexivity.
Qed.

Lemma draw_calls (m : Machine) :
  calls (draw m) = (calls m ++ new_calls m (draw m))%list
  /\ forallb is_canvas_call (new_calls m (draw m)) = true.
Proof.
  assert (H : exists cs, calls (draw m) = (calls m ++ cs)%list
                         /\ forallb is_canvas_call cs = true).
  { unfold draw, emit. destruct (in_menu (st m)); cbn [st calls];
      rewrite <- app_assoc; eexists; split; reflexivity. }
  destruct H as (cs & Hcs & Hcanvas).
  rewrite (new_calls_extends m (draw m) cs Hcs). now split.
Qed.

Lemma handle_calls (e : Event) (m : Machine) :
  calls (handle e m)
  = (calls m
     ++ match e with
        | Infrared times hw_random cyccnt =>
            let record := rng_record (generate_rng times hw_random cyccnt) in
            furi_mutex_acquire (mutex (st m))
            :: furi_hal_serial_tx (serial_handle (st m)) record
            :: (if log_to_file (st m) then log_calls record else [])
            ++ [furi_mutex_release (mutex (st m))]
        | Input _ _ => []
        | RenderTick => new_calls m (draw m)
        end)%list.
Proof.
  destruct e as [times hw cyc|ev now|]; cbn [handle].
  - rewrite ir_callback_result. reflexivity.
  - rewrite input_cb_calls, app_nil_r. reflexivity.
  - apply draw_calls.
Qed.

Lemma canvas_calls_silent (cs : list Call) :
  forallb is_canvas_call cs = true ->
  serial_output cs = EmptyString
  /\ (forall sto, storage_after cs sto = sto)
  /\ (forall holder, lock_discipline cs holder = Some holder).
Proof.
  induction cs as [|c cs IH]; intros Hall.
  - repeat split.
  - cbn [forallb] in Hall. apply andb_prop in Hall as [Hc Hcs].
    destruct (IH Hcs) as (Hs & Hsto & Hlock).
    destruct c; try discriminate Hc;
      (split; [exact Hs | split; [intros sto; apply Hsto | exact Hlock]]).
Qed.

Lemma append_assoc (a b c : string) :
  ((a ++ b) ++ c)%string = (a ++ b ++ c)%string.
Proof.
  induction a as [|x a IH]; cbn [append]; [reflexivity|now rewrite IH].
Qed.

Lemma handle_serial_output (e : Event) (m : Machine) :
  serial_output (calls (handle e m))
  = (serial_output (calls m) ++ record_of_event e)%string.
Proof.
  rewrite handle_calls, serial_output_app. f_equal.
  destruct e as [times hw cyc|ev now|]; cbn [record_of_event].
  - cbn [serial_output]. rewrite serial_output_app.
    destruct (log_to_file (st m)); cbn [log_calls serial_output append];
      now rewrite append_empty_r.
  - reflexivity.
  - apply canvas_calls_silent, draw_calls.
Qed.

(** X7: over any sequence of events, the serial port carries exactly the
    records of the infrared events, in their order; input events and render
    ticks send nothing. *)
Theorem serial_output_of_run (es : list Event) (m : Machine) :
  serial_output (calls (run es m))
  = (serial_output (calls m) ++ records_of es)%string.
Proof.
  revert m. induction es as [|e es IH]; intros m; cbn [run fold_left records_of].
  - now rewrite append_empty_r.
  - fold (run es (handle e m)). rewrite IH, handle_serial_output.
    apply append_assoc.
Qed.

(** ** The log file over whole runs *)

Lemma storage_after_app (cs cs' : list Call) (sto : Storage) :
  storage_after (cs ++ cs') sto = storage_after cs' (storage_after cs sto).
Proof. unfold storage_after. apply fold_left_app. Qed.

Lemma log_calls_close_stream (record : string) (sto : Storage) :
  stream (storage_after (log_calls record) sto) = None.
Proof. reflexivity. Qed.

Lemma handle_stream_closed (e : Event) (m : Machine) (sto : Storage) :
  stream (storage_after (calls m) sto) = None ->
  stream (storage_after (calls (handle e m)) sto) = None.
Proof.
  intros Hclosed. rewrite handle_calls, storage_after_app.
  destruct e as [times hw cyc|ev now|].
  - cbv zeta. destruct (log_to_file (st m)).
    + change (?a :: ?b :: log_calls ?r ++ ?c)%list
        with ([a; b] ++ log_calls r ++ c)%list.
      rewrite !storage_after_app.
      unfold storage_after at 1. cbn [fold_left storage_call].
      apply log_calls_close_stream.
    + exact Hclosed.
  - exact Hclosed.
  - destruct (draw_calls m) as [_ Hcanvas].
    destruct (canvas_calls_silent _ Hcanvas) as (_ & Hsto & _).
    now rewrite Hsto.
Qed.

(** X8: no event leaves the log file open: if no stream is open before a
    sequence of events, none is open after it, whatever the events and
    however often logging was switched on and off in between. *)
Theorem log_stream_never_left_open (es : list Event) (m : Machine) (sto : Storage) :
  stream (storage_after (calls m) sto) = None ->
  stream (storage_after (calls (run es m)) sto) = None.
Proof.
  revert m. induction es as [|e es IH]; intros m Hclosed; cbn [run fold_left].
  - exact Hclosed.
  - apply IH. now apply handle_stream_closed.
Qed.

Lemma log_stream_never_left_open_witness :
  let es := [Input (press InputKeyOk) 0; Input (release InputKeyOk) 1000;
             Input (press InputKeyOk) 2000; Input (release InputKeyOk) 2100;
             Infrared [100; 200; 150] 4096 15; RenderTick;
             Infrared [9; 8] 1 2] in
  let sto := mkStorage (fun _ => None) None in
  log_to_file (st (run es (boot 0 0))) = true
  /\ files (storage_after (calls (run es (boot 0 0))) sto) LOG_PATH <> None
  /\ stream (storage_after (calls (run es (boot 0 0))) sto) = None.
Proof.
  cbv zeta. split; [reflexivity|split].
  - vm_compute. discriminate.
  - apply log_stream_never_left_open. reflexivity.
Defined.

(** X9: while [log_to_file] is clear, no event touches the storage: files
    and streams are what they were, for infrared events, input events and
    render ticks alike. *)
Theorem storage_untouched_without_logging (e : Event) (m : Machine) (sto : Storage) :
  log_to_file (st m) = false ->
  storage_after (new_calls m (handle e m)) sto = sto.
Proof.
  intros Hoff.
  rewrite (new_calls_extends m (handle e m) _ (handle_calls e m)).
  destruct e as [times hw cyc|ev now|].
  - cbv zeta. rewrite Hoff. reflexivity.
  - reflexivity.
  - apply canvas_calls_silent, draw_calls.
Qed.

Lemma storage_untouched_without_logging_witness :
  let sto := mkStorage (put_file LOG_PATH "old" (fun _ => None)) None in
  storage_after
    (new_calls (boot 0 0) (handle (Infrared [100; 200; 150] 4096 15) (boot 0 0)))
    sto
  = sto.
Proof.
  cbv zeta. apply storage_untouched_without_logging. reflexivity.
Defined.

Lemma substring_none (n : nat) (s : string) : substring n 0 s = EmptyString.
Proof.
  revert s. induction n as [|n IH]; intros s; destruct s; cbn [substring];
    auto.
Qed.

Lemma put_file_other (path content p : string) (fs : string -> option string) :
  p <> path -> put_file path content fs p = fs p.
Proof.
  intros Hne. unfold put_file.
  destruct (String.eqb_spec p path); [contradiction|reflexivity].
Qed.

(** X10: with [log_to_file] set, one run of [process_ir] creates a missing log file holding exactly the record; in an existing
    file the record replaces the bytes from offset 0 on (all of them when
    the file was not longer than the record); no other file changes. *)
Theorem log_file_after_event (rng : Z) (m : Machine) (sto : Storage) :
  log_to_file (st m) = true ->
  let record := rng_record rng in
  let sto' := storage_after (new_calls m (process_ir rng m)) sto in
  files sto' LOG_PATH
  = Some match files sto LOG_PATH with
         | None => record
         | Some old => write_at 0 record old
         end
  /\ (forall old, (String.length old <= String.length record)%nat ->
                  write_at 0 record old = record)
  /\ (forall p, p <> LOG_PATH -> files sto' p = files sto p).
Proof.
  intros Hon. cbv zeta.
  assert (Hshort : forall old,
            (String.length old <= String.length (rng_record rng))%nat ->
            write_at 0 (rng_record rng) old = rng_record rng).
  { intros old Hlen. unfold write_at. cbn [Nat.add].
    replace (String.length old - String.length (rng_record rng))%nat
      with O by lia.
    rewrite !substring_none. cbn [append]. apply append_empty_r. }
  rewrite process_ir_result, new_calls_app, Hon.
  unfold storage_after, log_calls.
  cbn [fold_left storage_call storage_open].
  split; [|split].
  - destruct (files sto LOG_PATH) as [old|] eqn:Hold;
      unfold storage_write; cbn [stream files].
    + rewrite Hold. cbn [files]. apply put_file_same.
    + rewrite put_file_same. cbn [files]. rewrite put_file_same.
      f_equal. apply Hshort. cbn [String.length]. lia.
  - exact Hshort.
  - intros p Hp.
    destruct (files sto LOG_PATH) as [old|] eqn:Hold;
      unfold storage_write; cbn [stream files].
    + rewrite Hold. cbn [files]. now apply put_file_other.
    + rewrite put_file_same. cbn [files].
      rewrite !put_file_other by exact Hp. reflexivity.
Qed.

Lemma log_file_after_event_witness :
  let m := mkMachine (set_log_to_file true (initial_state 0 0)) [] in
  let sto := mkStorage (fun _ => None) None in
  files (storage_after (new_calls m (process_ir 4154 m)) sto) LOG_PATH
  = Some (rng_record 4154).
Proof.
  cbv zeta.
  refine (proj1 (log_file_after_event 4154
                   (mkMachine (set_log_to_file true (initial_state 0 0)) [])
                   (mkStorage (fun _ => None) None) _)).
  reflexivity.
Defined.

(** ** The mutex over whole runs *)

Lemma lock_discipline_app (cs cs' : list Call) (holder : option nat) :
  lock_discipline (cs ++ cs') holder
  = match lock_discipline cs holder with
    | Some holder' => lock_discipline cs' holder'
    | None => None
    end.
Proof.
  revert holder. induction cs as [|c cs IH]; intros holder; cbn [app].
  - reflexivity.
  - destruct c; cbn [lock_discipline]; try apply IH.
    + destruct holder; [reflexivity|apply IH].
    + destruct holder as [id'|]; [|reflexivity].
      destruct (Nat.eqb mutex0 id'); [apply IH|reflexivity].
Qed.

Lemma handle_lock_discipline (e : Event) (m : Machine) :
  lock_discipline (calls m) None = Some None ->
  lock_discipline (calls (handle e m)) None = Some None.
Proof.
  intros Hfree. rewrite handle_calls, lock_discipline_app, Hfree.
  destruct e as [times hw cyc|ev now|].
  - cbv zeta. cbn [lock_discipline].
    rewrite lock_discipline_app.
    destruct (log_to_file (st m)); cbn [log_calls lock_discipline];
      now rewrite Nat.eqb_refl.
  - reflexivity.
  - apply canvas_calls_silent, draw_calls.
Qed.

(** X11: the mutex is used in matched pairs: over any sequence of events
    it is never acquired while held, never released by a path that does not
    hold it, and it is free again after every event. *)
Theorem mutex_released_after_every_event (es : list Event) (m : Machine) :
  lock_discipline (calls m) None = Some None ->
  lock_discipline (calls (run es m)) None = Some None.
Proof.
  revert m. induction es as [|e es IH]; intros m Hfree; cbn [run fold_left].
  - exact Hfree.
  - apply IH. now apply handle_lock_discipline.
Qed.

Lemma mutex_released_after_every_event_witness :
  let es := [Infrared [100; 200; 150] 4096 15; RenderTick;
             Input (press InputKeyBack) 10; Infrared [] 3 4] in
  existsb is_mutex_call (calls (run es (boot 0 7))) = true
  /\ lock_discipline (calls (run es (boot 0 7))) None = Some None.
Proof.
  cbv zeta. split; [reflexivity|].
  apply mutex_released_after_every_event. reflexivity.
Defined.

(** ** input_cb over whole runs *)

Lemma handle_running_without_back_release (e : Event) (m : Machine) :
  is_back_release e = false -> running (st (handle e m)) = running (st m).
Proof.
  intros Hnot. destruct e as [times hw cyc|[k t] now|]; cbn [handle].
  - rewrite ir_callback_result. reflexivity.
  - destruct t, k; try discriminate Hnot; input_cb_cases; reflexivity.
  - now rewrite draw_st.
Qed.

(** X12: only a release of Back can stop the application: over a sequence
    of events without one, [running] keeps its value, whatever infrared
    signals, presses, Ok gestures and render ticks it contains. *)
Theorem running_kept_without_back_release (es : list Event) (m : Machine) :
  forallb (fun e => negb (is_back_release e)) es = true ->
  running (st (run es m)) = running (st m).
Proof.
  revert m. induction es as [|e es IH]; intros m Hes; cbn [run fold_left].
  - reflexivity.
  - cbn [forallb] in Hes. apply andb_prop in Hes as [He Hes].
    fold (run es (handle e m)). rewrite (IH _ Hes).
    apply handle_running_without_back_release.
    now apply negb_true_iff.
Qed.


Lemma running_kept_without_back_release_witness :
  let es := [Input (press InputKeyBack) 0; Infrared [1; 2; 3] 4 5;
             Input (press InputKeyOk) 10; Input (release InputKeyOk) 5000;
             Input (release InputKeyOk) 5100; RenderTick] in
  running (st (run es (boot 0 0))) = true.
Proof.
  cbv zeta.
  refine (running_kept_without_back_release _ (boot 0 0) _). reflexivity.
Defined.

Lemma handle_mode_without_ok_release (e : Event) (m : Machine) :
  is_ok_release e = false ->
  in_menu (st (handle e m)) = in_menu (st m)
  /\ log_to_file (st (handle e m)) = log_to_file (st m).
Proof.
  intros Hnot. destruct e as [times hw cyc|[k t] now|]; cbn [handle].
  - rewrite ir_callback_result. split; reflexivity.
  - destruct t; try (split; reflexivity).
    + destruct k; split; reflexivity.
    + destruct k; try discriminate Hnot;
        match goal with
        | |- context [input_cb ?ev now m] =>
            change ev with (release (key ev))
        end; cbn [key];
        try (rewrite release_other by discriminate; split; reflexivity).
      rewrite release_back.
      destruct (HOLD_TIME_MS <=? _); split; reflexivity.
  - rewrite draw_st. split; reflexivity.
Qed.

(** X13: only a release of Ok can change the mode or the logging flag:
    over a sequence of events without one, [in_menu] and [log_to_file] keep
    their values. *)
Theorem mode_kept_without_ok_release (es : list Event) (m : Machine) :
  forallb (fun e => negb (is_ok_release e)) es = true ->
  in_menu (st (run es m)) = in_menu (st m)
  /\ log_to_file (st (run es m)) = log_to_file (st m).
Proof.
  revert m. induction es as [|e es IH]; intros m Hes; cbn [run fold_left].
  - split; reflexivity.
  - cbn [forallb] in Hes. apply andb_prop in Hes as [He Hes].
    fold (run es (handle e m)). destruct (IH (handle e m) Hes) as [Hm Hl].
    apply negb_true_iff in He.
    destruct (handle_mode_without_ok_release e m He) as [Hm' Hl'].
    split; congruence.
Qed.

Lemma mode_kept_without_ok_release_witness :
  let es := [Input (press InputKeyOk) 0; Infrared [1; 2; 3] 4 5;
             Input (press InputKeyBack) 10; Input (release InputKeyBack) 5000;
             Input (mkInputEvent InputKeyOk InputTypeLong) 5100; RenderTick] in
  in_menu (st (run es (boot 0 0))) = false
  /\ log_to_file (st (run es (boot 0 0))) = false.
Proof.
  cbv zeta.
  refine (mode_kept_without_ok_release _ (boot 0 0) _). reflexivity.
Defined.

(** X14: [input_cb] reacts to presses and releases of Back and Ok only:
    an event of another type (Short, Long, Repeat) or of another key leaves
    the machine as it is. *)
Theorem other_input_ignored (ev : InputEvent) (now : Z) (m : Machine) :
  (type ev <> InputTypePress /\ type ev <> InputTypeRelease)
  \/ (key ev <> InputKeyBack /\ key ev <> InputKeyOk) ->
  input_cb ev now m = m.
Proof.
  intros [[Hp Hr] | [Hb Ho]]; destruct ev as [k t]; cbn [key type] in *.
  - destruct t; try congruence; reflexivity.
  - destruct k; try congruence; destruct t; try reflexivity;
      unfold input_cb; cbn [key type InputKey_eqb andb];
      now rewrite ?andb_false_r.
Qed.

Lemma other_input_ignored_witness :
  input_cb (mkInputEvent InputKeyBack InputTypeLong) 5000 (boot 0 0) = boot 0 0
  /\ input_cb (release InputKeyLeft) 5000 (boot 0 0) = boot 0 0.
Proof.
  split; apply other_input_ignored.
  - left. split; discriminate.
  - right. split; discriminate.
Defined.

(** X15: the logging flag can only be toggled from the menu: in Normal mode
    no input event of any key or type changes [log_to_file]. *)
Theorem logging_fixed_in_normal_mode (ev : InputEvent) (now : Z) (m : Machine) :
  in_menu (st m) = false ->
  log_to_file (st (input_cb ev now m)) = log_to_file (st m).
Proof.
  intros Hnormal. destruct ev as [k t].
  destruct t, k; unfold input_cb, update; cbn [key type st calls];
    rewrite ?Hnormal; cbn [andb InputKey_eqb];
    repeat match goal with
           | |- context [HOLD_TIME_MS <=? ?d] => destruct (HOLD_TIME_MS <=? d)
           end;
    reflexivity.
Qed.

Lemma logging_fixed_in_normal_mode_witness :
  log_to_file (st (input_cb (release InputKeyOk) 200
                     (input_cb (press InputKeyOk) 100 (boot 0 0))))
  = false.
Proof.
  apply (logging_fixed_in_normal_mode (release InputKeyOk) 200
           (input_cb (press InputKeyOk) 100 (boot 0 0))).
  reflexivity.
Defined.

Lemma machine_eta (m : Machine) (s : FlameTunnelState) :
  s = st m -> mkMachine s (calls m) = m.
Proof. intros ->. destruct m; reflexivity. Qed.

(** X16: the two Ok gestures undo themselves: two held releases of Ok in a
    row bring back the state before them, and so do two short releases of
    Ok in the menu. *)
Theorem ok_gestures_are_involutions (now1 now2 : Z) (m : Machine) :
  let once := input_cb (release InputKeyOk) now1 m in
  let twice := input_cb (release InputKeyOk) now2 once in
  (HOLD_TIME_MS <= U32.sub now1 (ok_pressed_time (st m)) ->
   HOLD_TIME_MS <= U32.sub now2 (ok_pressed_time (st m)) ->
   in_menu (st once) = negb (in_menu (st m)) /\ twice = m)
  /\ (in_menu (st m) = true ->
      U32.sub now1 (ok_pressed_time (st m)) < HOLD_TIME_MS ->
      U32.sub now2 (ok_pressed_time (st m)) < HOLD_TIME_MS ->
      log_to_file (st once) = negb (log_to_file (st m)) /\ twice = m).
Proof.
  cbv zeta. split.
  - intros H1 H2. rewrite (release_ok now1 m).
    destruct (Z.leb_spec HOLD_TIME_MS (U32.sub now1 (ok_pressed_time (st m))));
      [|lia].
    rewrite release_ok.
    cbn [update st calls ok_pressed_time set_in_menu in_menu].
    destruct (Z.leb_spec HOLD_TIME_MS (U32.sub now2 (ok_pressed_time (st m))));
      [|lia].
    split; [reflexivity|].
    unfold update. cbn [st calls]. apply machine_eta.
    unfold set_in_menu. cbn. rewrite negb_involutive.
    destruct (st m); reflexivity.
  - intros Hmenu H1 H2. rewrite (release_ok now1 m), Hmenu.
    destruct (Z.leb_spec HOLD_TIME_MS (U32.sub now1 (ok_pressed_time (st m))));
      [lia|].
    rewrite release_ok.
    cbn [update st calls ok_pressed_time set_log_to_file in_menu log_to_file].
    rewrite Hmenu.
    destruct (Z.leb_spec HOLD_TIME_MS (U32.sub now2 (ok_pressed_time (st m))));
      [lia|].
    split; [reflexivity|].
    unfold update. cbn [st calls]. apply machine_eta.
    unfold set_log_to_file. cbn. rewrite negb_involutive.
    destruct (st m); reflexivity.
Qed.

Lemma ok_gestures_are_involutions_witness :
  let m := mkMachine (mkState 0 true false 0 0 true 100 100) [] in
  input_cb (release InputKeyOk) 1300 (input_cb (release InputKeyOk) 1200 m) = m
  /\ input_cb (release InputKeyOk) 300 (input_cb (release InputKeyOk) 200 m) = m.
Proof.
  cbv zeta.
  destruct (ok_gestures_are_involutions 1200 1300
              (mkMachine (mkState 0 true false 0 0 true 100 100) []))
    as [Hheld _].
  destruct (ok_gestures_are_involutions 200 300
              (mkMachine (mkState 0 true false 0 0 true 100 100) []))
    as [_ Hshort].
  split.
  - apply Hheld; vm_compute; discriminate.
  - apply Hshort; reflexivity.
Defined.

Lemma sub_add_cancel (t0 elapsed : Z) :
  0 <= elapsed < U32.modulus -> U32.sub (U32.add t0 elapsed) t0 = elapsed.
Proof.
  intros He. unfold U32.sub, U32.add, U32.wrap.
  rewrite Zminus_mod_idemp_l.
  replace (t0 + elapsed - t0) with elapsed by lia.
  now apply Z.mod_small.
Qed.

(** X17: the hold time is measured correctly across the wrap-around of the
    32-bit tick counter: if [elapsed] ticks pass between the press and the
    release of Back or Ok, the release is held exactly when
    [elapsed >= 1000], also when the release tick is numerically below the
    press tick. *)
Theorem hold_time_across_tick_wrap (k : InputKey) (t0 elapsed : Z) (m : Machine) :
  k = InputKeyBack \/ k = InputKeyOk ->
  0 <= elapsed < U32.modulus ->
  let t1 := U32.add t0 elapsed in
  let released := input_cb (release k) t1 (input_cb (press k) t0 m) in
  (HOLD_TIME_MS <= elapsed ->
   (k = InputKeyBack -> running (st released) = false)
   /\ (k = InputKeyOk -> in_menu (st released) = negb (in_menu (st m))))
  /\ (elapsed < HOLD_TIME_MS ->
      running (st released) = running (st m)
      /\ in_menu (st released) = in_menu (st m)).
Proof.
  intros Hk He. cbv zeta.
  pose proof (sub_add_cancel t0 elapsed He) as Hsub.
  destruct Hk as [-> | ->].
  - rewrite press_back, release_back.
    cbn [update st back_pressed_time set_back_pressed_time]. rewrite Hsub.
    destruct (Z.leb_spec HOLD_TIME_MS elapsed); split; intros Hcmp; try lia.
    + split; [reflexivity | discriminate].
    + split; reflexivity.
  - rewrite press_ok, release_ok.
    cbn [update st ok_pressed_time set_ok_pressed_time in_menu]. rewrite Hsub.
    destruct (Z.leb_spec HOLD_TIME_MS elapsed); split; intros Hcmp; try lia.
    + split; [discriminate | reflexivity].
    + destruct (in_menu (st m)) eqn:Hmenu;
        cbn [update st running in_menu set_log_to_file set_ok_pressed_time];
        rewrite ?Hmenu; split; reflexivity.
Qed.

Lemma hold_time_across_tick_wrap_witness :
  U32.add 4294966796 1000 = 500
  /\ running (st (input_cb (release InputKeyBack) 500
                    (input_cb (press InputKeyBack) 4294966796 (boot 0 0))))
     = false.
Proof.
  split; [reflexivity|].
  refine (proj1 (proj1 (hold_time_across_tick_wrap InputKeyBack 4294966796 1000
                          (boot 0 0) _ _) _) eq_refl);
    first [left; reflexivity | unfold HOLD_TIME_MS, U32.modulus; lia].
Defined.

Lemma handle_state_fields (e : Event) (m : Machine) :
  last_rng (st (handle e m)) = last_infrared [e] (last_rng (st m))
  /\ serial_handle (st (handle e m)) = serial_handle (st m)
  /\ mutex (st (handle e m)) = mutex (st m).
Proof.
  destruct e as [times hw cyc|[k t] now|]; cbn [handle last_infrared].
  - rewrite ir_callback_result. repeat split.
  - destruct t, k; input_cb_cases; repeat split.
  - rewrite draw_st. repeat split.
Qed.

(** X18: after any sequence of events [last_rng] is the value of the last
    infrared event in it (the old value when there was none), and the serial
    and mutex handles are the ones the state started with. *)
Theorem state_after_run (es : list Event) (m : Machine) :
  last_rng (st (run es m)) = last_infrared es (last_rng (st m))
  /\ serial_handle (st (run es m)) = serial_handle (st m)
  /\ mutex (st (run es m)) = mutex (st m).
Proof.
  revert m. induction es as [|e es IH]; intros m; cbn [run fold_left].
  - repeat split.
  - fold (run es (handle e m)).
    destruct (IH (handle e m)) as (Hl & Hs & Hm).
    destruct (handle_state_fields e m) as (Hl' & Hs' & Hm').
    rewrite Hl, Hs, Hm, Hl', Hs', Hm'.
    destruct e; repeat split.
Qed.

(** ** draw *)

(** X19: a render tick only draws: it leaves the state as it is and calls
    nothing but the canvas, so it sends nothing on the serial port, touches
    no file and takes no mutex. *)
Theorem draw_only_draws (m : Machine) :
  st (draw m) = st m
  /\ calls (draw m) = (calls m ++ new_calls m (draw m))%list
  /\ forallb is_canvas_call (new_calls m (draw m)) = true
  /\ serial_output (new_calls m (draw m)) = EmptyString
  /\ (forall sto, storage_after (new_calls m (draw m)) sto = sto)
  /\ existsb is_mutex_call (new_calls m (draw m)) = false.
Proof.
  destruct (draw_calls m) as [Hext Hcanvas].
  destruct (canvas_calls_silent _ Hcanvas) as (Hserial & Hsto & _).
  repeat split; try assumption.
  - apply draw_st.
  - clear Hext Hserial Hsto.
    induction (new_calls m (draw m)) as [|c cs IH]; [reflexivity|].
    cbn [forallb] in Hcanvas. apply andb_prop in Hcanvas as [Hc Hcs].
    cbn [existsb]. rewrite (IH Hcs).
    destruct c; try discriminate Hc; reflexivity.
Qed.

Lemma zeros_length (k : nat) : String.length (zeros k) = k.
Proof. induction k as [|k IH]; cbn [zeros String.length]; congruence. Qed.

Lemma atou_loop_zeros (k : nat) (s : string) :
  atou_loop (zeros k ++ s) 0 = atou_loop s 0.
Proof.
  induction k as [|k IH]; cbn [zeros append atou_loop]; [reflexivity|].
  exact IH.
Qed.

Lemma utoa06_properties (n : Z) :
  U32.in_range n ->
  atou (utoa06 n) = n /\ (6 <= String.length (utoa06 n) <= 10)%nat.
Proof.
  intros Hn. unfold utoa06. split.
  - unfold atou. rewrite atou_loop_zeros. now apply atou_utoa.
  - rewrite length_append, zeros_length.
    pose proof (utoa_digits n Hn). lia.
Qed.

Lemma all_digits_utoa_loop (fuel : nat) (n : Z) (acc : string) :
  all_digits acc = true -> all_digits (utoa_loop fuel n acc) = true.
Proof.
  revert n acc. induction fuel as [|fuel IH]; intros n acc Hacc;
    cbn [utoa_loop]; [exact Hacc|].
  assert (Hstep : all_digits (String (digit_char (n mod 10)) acc) = true).
  { cbn [all_digits]. rewrite Hacc, is_digit_char; [reflexivity|].
    apply Z.mod_pos_bound. lia. }
  destruct (n / 10 =? 0); [exact Hstep | now apply IH].
Qed.

Lemma all_digits_zeros (k : nat) (s : string) :
  all_digits s = true -> all_digits (zeros k ++ s) = true.
Proof.
  intros Hs. induction k as [|k IH]; cbn [zeros append all_digits];
    [exact Hs|]. rewrite IH. reflexivity.
Qed.

Lemma utoa_loop_length_min (fuel k : nat) (n : Z) (acc : string) :
  10 ^ Z.of_nat k <= n -> (k < fuel)%nat ->
  (k + 1 + String.length acc <= String.length (utoa_loop fuel n acc))%nat.
Proof.
  revert k n acc. induction fuel as [|fuel IH]; intros k n acc Hn Hk; [lia|].
  change (utoa_loop (S fuel) n acc)
    with (if n / 10 =? 0
          then String (digit_char (n mod 10)) acc
          else utoa_loop fuel (n / 10) (String (digit_char (n mod 10)) acc)).
  destruct k as [|k].
  - destruct (n / 10 =? 0).
    + cbn [String.length]. lia.
    + pose proof (utoa_loop_length_lower fuel (n / 10)
                    (String (digit_char (n mod 10)) acc)) as H.
      cbn [String.length] in H. lia.
  - rewrite Nat2Z.inj_succ, Z.pow_succ_r in Hn by lia.
    assert (Hpow : 0 < 10 ^ Z.of_nat k) by (apply Z.pow_pos_nonneg; lia).
    assert (Hdiv : 10 ^ Z.of_nat k <= n / 10)
      by (apply Z.div_le_lower_bound; lia).
    destruct (Z.eqb_spec (n / 10) 0) as [Hz|Hnz]; [lia|].
    specialize (IH k (n / 10) (String (digit_char (n mod 10)) acc) Hdiv
                  ltac:(lia)).
    cbn [String.length] in IH. lia.
Qed.

Lemma utoa_loop_leading_digit (fuel : nat) (n : Z) (acc : string) :
  0 < n < 10 ^ Z.of_nat fuel ->
  exists c rest, utoa_loop fuel n acc = String c rest /\ c <> "0"%char.
Proof.
  revert n acc. induction fuel as [|fuel IH]; intros n acc Hn.
  - cbn in Hn. lia.
  - cbn [utoa_loop].
    rewrite Nat2Z.inj_succ, Z.pow_succ_r in Hn by lia.
    pose proof (Z.mod_pos_bound n 10 ltac:(lia)) as Hd.
    pose proof (Z.div_mod n 10 ltac:(lia)) as Hdm.
    destruct (Z.eqb_spec (n / 10) 0) as [Hz|Hnz].
    + exists (digit_char (n mod 10)), acc. split; [reflexivity|].
      intros Hc. pose proof (digit_value_char (n mod 10) Hd) as Hv.
      rewrite Hc in Hv.
      change (digit_value "0"%char) with 0 in Hv. lia.
    + apply IH. split.
      * assert (0 <= n / 10) by (apply Z.div_pos; lia). lia.
      * apply Z.div_lt_upper_bound; lia.
Qed.

(** The text printed by [%06lu] for a 32-bit value: decimal digits only,
    reading back as the value; six characters up to 999999, and from
    1000000 on the plain decimal numeral without a leading zero. *)
Lemma utoa06_canonical (n : Z) :
  U32.in_range n ->
  all_digits (utoa06 n) = true
  /\ (n < 1000000 -> String.length (utoa06 n) = 6%nat)
  /\ (1000000 <= n ->
      (7 <= String.length (utoa06 n) <= 10)%nat
      /\ exists c rest, utoa06 n = String c rest /\ c <> "0"%char).
Proof.
  intros Hn. pose proof Hn as [H0 H1]. unfold U32.modulus in H1.
  pose proof (utoa_digits n Hn) as Hlen.
  split; [|split].
  - unfold utoa06. apply all_digits_zeros.
    unfold utoa. now apply all_digits_utoa_loop.
  - intros Hsmall. unfold utoa06. rewrite length_append, zeros_length.
    pose proof (utoa_loop_length_upper 20 6 n EmptyString) as Hup.
    cbn [String.length] in Hup. fold (utoa n) in Hup.
    assert (String.length (utoa n) <= 6 + 0)%nat.
    { apply Hup; [|lia]. change (10 ^ Z.of_nat 6) with 1000000. lia. }
    lia.
  - intros Hbig.
    pose proof (utoa_loop_length_min 20 6 n EmptyString) as Hmin.
    cbn [String.length] in Hmin. fold (utoa n) in Hmin.
    assert (Hseven : (6 + 1 + 0 <= String.length (utoa n))%nat).
    { apply Hmin; [|lia]. change (10 ^ Z.of_nat 6) with 1000000. lia. }
    unfold utoa06.
    replace (6 - String.length (utoa n))%nat with O by lia.
    cbn [zeros append]. split; [lia|].
    unfold utoa. apply utoa_loop_leading_digit.
    change (10 ^ Z.of_nat 20) with 100000000000000000000. lia.
Qed.

(** X20: in the menu a render tick draws the title and ["Log ON"] or
    ["Log OFF"] after [log_to_file]; in Normal mode it draws the title and
    [last_rng] in decimal, zero-padded to six characters: the text has
    decimal digits only and reads back as [last_rng]; it has exactly six
    characters while [last_rng < 1000000], and from 1000000 on it is the
    numeral without leading zero, of at most ten characters; the 32-byte
    buffer never cuts it. *)
Theorem draw_shows_state (m : Machine) :
  (in_menu (st m) = true ->
   new_calls m (draw m)
   = [canvas_clear; canvas_set_font FontPrimary;
      canvas_draw_str 2 10 "Config Menu";
      canvas_draw_str 2 30 (if log_to_file (st m) then "Log ON" else "Log OFF")])
  /\ (in_menu (st m) = false -> U32.in_range (last_rng (st m)) ->
      exists text,
        new_calls m (draw m)
        = [canvas_clear; canvas_set_font FontPrimary;
           canvas_draw_str 2 10 "Flame Tunnel";
           canvas_set_font FontBigNumbers;
           canvas_draw_str_aligned 64 30 text]
        /\ atou text = last_rng (st m)
        /\ (6 <= String.length text <= 10)%nat
        /\ all_digits text = true
        /\ (last_rng (st m) < 1000000 -> String.length text = 6%nat)
        /\ (1000000 <= last_rng (st m) ->
            (7 <= String.length text)%nat
            /\ exists c rest, text = String c rest /\ c <> "0"%char)).
Proof.
  split.
  - intros Hmenu. apply new_calls_extends.
    unfold draw, emit. rewrite Hmenu. cbn [st calls].
    now rewrite <- app_assoc.
  - intros Hnormal Hrange.
    destruct (utoa06_properties _ Hrange) as [Hback Hlen].
    destruct (utoa06_canonical _ Hrange) as (Hdigits & Hsix & Hbig).
    exists (utoa06 (last_rng (st m))).
    split; [|split; [exact Hback|split; [exact Hlen|split;
              [exact Hdigits|split; [exact Hsix|]]]]].
    + apply new_calls_extends.
      unfold draw, emit. rewrite Hnormal. cbn [st calls].
      rewrite <- app_assoc. cbn [app].
      unfold snprintf. cbn [fst].
      rewrite (substring_all (utoa06 (last_rng (st m))) (32 - 1)) by lia.
      reflexivity.
    + intros Hlarge. destruct (Hbig Hlarge) as [[Hseven _] Hlead].
      split; [exact Hseven | exact Hlead].
Qed.

Lemma draw_shows_state_witness :
  let m := mkMachine (set_last_rng 4154 (initial_state 0 0)) [] in
  exists text,
    new_calls m (draw m)
    = [canvas_clear; canvas_set_font FontPrimary;
       canvas_draw_str 2 10 "Flame Tunnel";
       canvas_set_font FontBigNumbers;
       canvas_draw_str_aligned 64 30 text]
    /\ atou text = 4154
    /\ (6 <= String.length text <= 10)%nat
    /\ all_digits text = true
    /\ (4154 < 1000000 -> String.length text = 6%nat)
    /\ (1000000 <= 4154 ->
        (7 <= String.length text)%nat
        /\ exists c rest, text = String c rest /\ c <> "0"%char).
Proof.
  cbv zeta.
  refine (proj2 (draw_shows_state
                   (mkMachine (set_last_rng 4154 (initial_state 0 0)) []))
                _ _).
  - reflexivity.
  - cbn. unfold U32.in_range, U32.modulus. lia.
Defined.

(** ** bgw_flipper_ir_serial_app *)

Lemma run_app (es es' : list Event) (m : Machine) :
  run (es ++ es') m = run es' (run es m).
Proof. unfold run. apply fold_left_app. Qed.

Lemma run_keeps_running (es : list Event) (m : Machine) :
  running (st m) = true ->
  forallb (fun e => negb (is_back_release e)) es = true ->
  running (st (run es m)) = true.
Proof.
  revert m. induction es as [|e es IH]; intros m Hrun Hes; cbn [run fold_left].
  - exact Hrun.
  - cbn [forallb] in Hes. apply andb_prop in Hes as [He Hes].
    apply negb_true_iff in He.
    apply IH; [|exact Hes].
    now rewrite handle_running_without_back_release.
Qed.




Lemma main_loop_skip (before rest : list (list Event)) (m : Machine) (passes : nat) :
  running (st m) = true ->
  forallb (fun e => negb (is_back_release e)) (List.concat before) = true ->
  main_loop (before ++ rest) m passes
  = main_loop rest (run (List.concat before) m) (passes + List.length before)
  /\ running (st (run (List.concat before) m)) = true.
Proof.
  revert m passes. induction before as [|r before IH]; intros m passes Hrun Hno.
  - cbn [app List.concat run fold_left List.length]. rewrite Nat.add_0_r. now split.
  - cbn [List.concat] in Hno. rewrite forallb_app in Hno.
    apply andb_prop in Hno as [Hr Hbefore].
    cbn [app main_loop List.concat List.length]. rewrite Hrun, run_app.
    pose proof (run_keeps_running r m Hrun Hr) as Hrun'.
    destruct (IH (run r m) (S passes) Hrun' Hbefore) as [Hloop Hstill].
    rewrite Hloop. split; [f_equal; lia | exact Hstill].
Qed.

Lemma main_loop_exit (rounds : list (list Event)) (m m' : Machine) (passes passes' : nat) :
  main_loop rounds m passes = Some (m', passes') -> running (st m') = false.
Proof.
  revert m passes. induction rounds as [|r rounds IH]; intros m passes;
    cbn [main_loop]; destruct (running (st m)) eqn:Hrun; try discriminate.
  - intros [= <- _]. exact Hrun.
  - apply IH.
  - intros [= <- _]. exact Hrun.
Qed.

(** X21: the entry point cannot return without a release of Back: on a
    schedule of callbacks that contains none, [running] is still set after
    every round, however many rounds there are. *)
Theorem app_keeps_running_without_back_release (serial mtx : nat)
    (early : list Event) (rounds : list (list Event)) :
  forallb (fun e => negb (is_back_release e)) (early ++ List.concat rounds) = true ->
  bgw_flipper_ir_serial_app serial mtx early rounds = None.
Proof.
  intros Hno. rewrite forallb_app in Hno. apply andb_prop in Hno as [He Hr].
  unfold bgw_flipper_ir_serial_app.
  assert (Hrun : running (st (run early (boot serial mtx))) = true)
    by (apply run_keeps_running; [reflexivity|exact He]).
  destruct (main_loop_skip rounds [] _ 0 Hrun Hr) as [Hloop Hstill].
  rewrite app_nil_r in Hloop. rewrite Hloop.
  cbn [main_loop]. now rewrite Hstill.
Qed.

Lemma app_keeps_running_without_back_release_witness :
  bgw_flipper_ir_serial_app 0 0
    [Input (release InputKeyOk) 5000]
    [[Infrared [100; 200; 150] 4096 15; RenderTick];
     [Input (press InputKeyBack) 6000; Input (press InputKeyOk) 6100];
     [Input (release InputKeyOk) 9000; RenderTick]]
  = None.
Proof.
  apply app_keeps_running_without_back_release. reflexivity.
Defined.



Lemma loop_calls_hold_nothing (r : Resource) (n : nat) (rest : list MainCall)
    (held : bool) :
  resource_discipline r (loop_calls n ++ rest) held
  = resource_discipline r rest held.
Proof.
  induction n as [|n IH]; cbn [loop_calls app]; [reflexivity|].
  destruct r; cbn [resource_discipline takes gives_back]; exact IH.
Qed.

Lemma loop_calls_take_nothing (r : Resource) (n : nat) :
  filter (takes r) (loop_calls n) = [].
Proof.
  induction n as [|n IH]; cbn [loop_calls filter]; [reflexivity|].
  destruct r; cbn [takes]; exact IH.
Qed.

(** X23: whenever the entry point returns, it returns 0 with [running]
    cleared, and its own calls take each of the mutex object, the serial
    control, the serial port, the view port, the GUI record, the view port's
    place in the GUI, the infrared worker and the reception exactly once,
    never give back what is not held, and hold none of them at the return,
    however many passes the loop made. *)
Theorem app_gives_back_what_it_takes (serial mtx : nat) (early : list Event)
    (rounds : list (list Event)) (res : AppResult) :
  bgw_flipper_ir_serial_app serial mtx early rounds = Some res ->
  ret res = 0
  /\ running (st (final res)) = false
  /\ forall r,
       List.length (filter (takes r) (main_calls res)) = 1%nat
       /\ resource_discipline r (main_calls res) false = Some false.
Proof.
  unfold bgw_flipper_ir_serial_app.
  destruct (main_loop rounds (run early (boot serial mtx)) 0)
    as [[m passes]|] eqn:Hloop; [|discriminate].
  intros [= <-]. cbn [ret final main_calls].
  split; [reflexivity|split].
  - exact (main_loop_exit _ _ _ _ _ Hloop).
  - intros r. split.
    + destruct r; cbn [filter takes];
        rewrite filter_app, loop_calls_take_nothing; reflexivity.
    + unfold setup_calls.
      destruct r; cbn [app resource_discipline takes gives_back];
        rewrite loop_calls_hold_nothing; reflexivity.
Qed.

Lemma app_gives_back_what_it_takes_witness :
  exists res,
    bgw_flipper_ir_serial_app 0 0 []
      [[Input (press InputKeyBack) 5000]; [Input (release InputKeyBack) 6000]]
    = Some res
    /\ ret res = 0
    /\ running (st (final res)) = false
    /\ forall r,
         List.length (filter (takes r) (main_calls res)) = 1%nat
         /\ resource_discipline r (main_calls res) false = Some false.
Proof.
  eexists. split; [vm_compute; reflexivity|].
  eapply (app_gives_back_what_it_takes 0 0 []
            [[Input (press InputKeyBack) 5000]; [Input (release InputKeyBack) 6000]]).
  vm_compute. reflexivity.
Defined.
